(** * Workout API: a shallow embedding of the CRUD handlers

    The service is a FastAPI application with five routes under
    [/workouts].  Each handler receives a SQLAlchemy session bound to the
    single table [workouts] and performs one logical storage operation.

    The embedding has three layers, leaf to root, like the source:
    - [database]: the table and the SQL statements the session emits;
    - [models] / [schemas]: the mapped class and the transfer shapes;
    - the session (a small state-and-exception monad) and the handlers,
      written line by line after [app/routers/workouts.py].

    Python values are dynamically typed, so attributes and columns hold a
    [value]; Python [int] is unbounded and is modelled by [Z].  The store
    configured in [app/database.py] is SQLite: its integers are signed and
    64 bits wide, and the driver raises on a parameter it cannot bind; an
    insert without key takes one more than the largest key present, so
    the key of a deleted last row can be given out again. *)

From Stdlib Require Import ZArith Ascii String.
From stdpp Require Import base tactics option strings numbers list.

Local Open Scope string_scope.
Local Open Scope Z_scope.
Local Open Scope list_scope.

(** ** Python values *)

(** What [json.loads] can produce, which is also all an attribute of a
    mapped instance ever holds here.  A float is kept as its literal. *)
#[warnings="-register-all"]
Inductive value :=
  | VNone
  | VBool (b : bool)
  | VInt (n : Z)
  | VFloat (literal : string)
  | VStr (s : string)
  | VList (items : list value)
  | VDict (items : list (string * value)).

(** [d.get(key)] on a decoded JSON object: the decoder keeps the last
    binding of a repeated key. *)
Fixpoint dict_get (key : string) (items : list (string * value)) : option value :=
  match items with
  | [] => None
  | (k, v) :: rest =>
      match dict_get key rest with
      | Some v' => Some v'
      | None => if decide (k = key) then Some v else None
      end
  end.

(** ** Field validators

    The validators behind the annotations [int] and [str] belong to the
    validation library, not to this repository; the development is
    parametric in them.  All that is used is that an [int] is a valid
    [int] and a [str] a valid [str], each accepted unchanged. *)
Class Pydantic := {
  int_validator : value → option Z;
  str_validator : value → option string;
  int_validator_int : ∀ n, int_validator (VInt n) = Some n;
  str_validator_str : ∀ s, str_validator (VStr s) = Some s;
}.

(** One concrete choice, used to run the handlers on examples.  As an
    integer it takes an integer, a boolean (as 0 or 1), a float whose
    literal has a zero fraction, and a string of decimal digits with an
    optional sign; as a string it takes a string.  The library takes a
    little more (blanks around a numeral, and in its first version a
    float with a fraction, which it cuts off); the examples stay within
    what is written here. *)
Definition digit (c : ascii) : option Z :=
  let n := Z.of_nat (nat_of_ascii c) - 48 in
  if (0 <=? n) && (n <=? 9) then Some n else None.

Fixpoint digits (acc : Z) (s : string) : option Z :=
  match s with
  | EmptyString => Some acc
  | String c rest => d ← digit c; digits (10 * acc + d) rest
  end.

(** [int(s)] on a plain numeral. *)
Definition int_of_string (s : string) : option Z :=
  match s with
  | EmptyString => None
  | String "-"%char (String _ _ as numeral) => Z.opp <$> digits 0 numeral
  | String "+"%char (String _ _ as numeral) => digits 0 numeral
  | numeral => digits 0 numeral
  end.

Fixpoint zeros (s : string) : bool :=
  match s with
  | EmptyString => true
  | String c rest => if decide (c = "0"%char) then zeros rest else false
  end.

(** The integer of a float literal such as [80.0]. *)
Fixpoint int_of_float (whole : string) (literal : string) : option Z :=
  match literal with
  | EmptyString => None
  | String c rest =>
      if decide (c = "."%char)
      then (if zeros rest then int_of_string whole else None)
      else int_of_float (whole ++ String c EmptyString) rest
  end.

Definition lax_int (v : value) : option Z :=
  match v with
  | VInt n => Some n
  | VBool b => Some (if b then 1 else 0)
  | VFloat literal => int_of_float "" literal
  | VStr s => int_of_string s
  | VNone | VList _ | VDict _ => None
  end.

Definition exact_str (v : value) : option string :=
  match v with VStr s => Some s | _ => None end.

#[export] Instance lax_validators : Pydantic :=
  {| int_validator := lax_int;
     str_validator := exact_str;
     int_validator_int := λ _, eq_refl;
     str_validator_str := λ _, eq_refl |}.

(** ** app/database.py: the table and its statements *)
Module database.

(** The integers of the store are signed and 64 bits wide. *)
Definition int64_min : Z := -9223372036854775808.
Definition int64_max : Z := 9223372036854775807.

(** Whether the driver can bind a Python [int] as a parameter of a
    statement; beyond the range it raises [OverflowError]. *)
Definition fits (n : Z) : bool := (int64_min <=? n) && (n <=? int64_max).

(** Whether the driver can bind a Python value at all. *)
Definition bindable (v : value) : bool :=
  match v with
  | VInt n => fits n
  | VList _ | VDict _ => false
  | VNone | VBool _ | VFloat _ | VStr _ => true
  end.

(** Once the largest key is the largest integer, the store tries keys at
    random.  [random_rowid] is the candidate it ends on for a table with
    the given keys: a positive integer of the store, unused unless the
    store gave up.  The candidate is taken per set of keys: the state of
    the generator is not modelled. *)
Class Sqlite := {
  random_rowid : list Z → Z;
  random_rowid_range : ∀ keys, 1 ≤ random_rowid keys ≤ int64_max;
}.

(** A row of [workouts].  [id] is the integer primary key; the other
    columns carry no constraint beyond their declared type. *)
Record Row := mkRow {
  row_id : Z;
  row_title : value;
  row_load : value;
  row_reps : value;
}.

Abbreviation Table := (list Row).

Definition ids (t : Table) : list Z := row_id <$> t.

(** [SELECT ... WHERE id = k] *)
Fixpoint select_by_id (k : Z) (t : Table) : option Row :=
  match t with
  | [] => None
  | r :: rest => if decide (row_id r = k) then Some r else select_by_id k rest
  end.

(** The key given to an [INSERT] that supplies none: 1 on an empty
    table, one more than the largest key while there is one more, and a
    random candidate after that. *)
Definition next_rowid `{Sqlite} (t : Table) : Z :=
  match ids t with
  | [] => 1
  | k :: ks =>
      let largest := foldr Z.max k ks in
      if decide (largest < int64_max) then largest + 1
      else random_rowid (ids t)
  end.

(** [INSERT INTO workouts ...] *)
Definition insert_row (r : Row) (t : Table) : Table := t ++ [r].

(** [UPDATE workouts SET ... WHERE id = k] *)
Fixpoint update_row (k : Z) (r : Row) (t : Table) : Table :=
  match t with
  | [] => []
  | r0 :: rest =>
      if decide (row_id r0 = k) then r :: update_row k r rest
      else r0 :: update_row k r rest
  end.

(** [DELETE FROM workouts WHERE id = k] *)
Fixpoint delete_row (k : Z) (t : Table) : Table :=
  match t with
  | [] => []
  | r0 :: rest =>
      if decide (row_id r0 = k) then delete_row k rest
      else r0 :: delete_row k rest
  end.

End database.

(** ** app/models.py *)
Module models.

(** An instance of the mapped class: one attribute per column.  [id] is
    [None] until the instance has been flushed. *)
Record Workout := mkWorkout {
  id : value;
  title : value;
  load : value;
  reps : value;
}.

Definition columns : list string := ["id"; "title"; "load"; "reps"].

(** [setattr(workout, key, v)]; a name that is no column leaves the
    mapped attributes as they are. *)
Definition setattr (w : Workout) (key : string) (v : value) : Workout :=
  if decide (key = "id") then mkWorkout v (title w) (load w) (reps w)
  else if decide (key = "title") then mkWorkout (id w) v (load w) (reps w)
  else if decide (key = "load") then mkWorkout (id w) (title w) v (reps w)
  else if decide (key = "reps") then mkWorkout (id w) (title w) (load w) v
  else w.

(** The constructor called with keyword arguments: every keyword must
    name a column and is set in turn; [None] stands for the [TypeError]
    of an unknown keyword. *)
Fixpoint init (w : Workout) (kwargs : list (string * value)) : option Workout :=
  match kwargs with
  | [] => Some w
  | (k, v) :: rest =>
      if decide (k ∈ columns) then init (setattr w k v) rest else None
  end.

Definition blank : Workout := mkWorkout VNone VNone VNone VNone.

(** The row an instance is written to, under key [k]. *)
Definition to_row (k : Z) (w : Workout) : database.Row :=
  database.mkRow k (title w) (load w) (reps w).

(** The instance a row is loaded into. *)
Definition of_row (r : database.Row) : Workout :=
  mkWorkout (VInt (database.row_id r)) (database.row_title r)
            (database.row_load r) (database.row_reps r).

End models.

(** ** app/schemas.py *)
Module schemas.

Record WorkoutBase := mkWorkoutBase {
  title : string;
  load : Z;
  reps : Z;
}.

Definition WorkoutCreate := WorkoutBase.
Definition WorkoutUpdate := WorkoutBase.

Record WorkoutOut := mkWorkoutOut {
  out_title : string;
  out_load : Z;
  out_reps : Z;
  out_id : Z;
}.

(** [model.dict()], in field order. *)
Definition dict (w : WorkoutBase) : list (string * value) :=
  [("title", VStr (title w)); ("load", VInt (load w)); ("reps", VInt (reps w))].

Section validation.
Context `{Pydantic}.

(** Validation of a request body against [WorkoutBase]: the body must
    be an object, each field must be present and pass its validator;
    other keys are ignored. *)
Definition parse (body : value) : option WorkoutBase :=
  match body with
  | VDict items =>
      t ← dict_get "title" items ≫= str_validator;
      l ← dict_get "load" items ≫= int_validator;
      r ← dict_get "reps" items ≫= int_validator;
      Some (mkWorkoutBase t l r)
  | _ => None
  end.

(** [orm_mode]: read the four attributes off a mapped instance and
    validate each against its field. *)
Definition from_orm (w : models.Workout) : option WorkoutOut :=
  t ← str_validator (models.title w);
  l ← int_validator (models.load w);
  r ← int_validator (models.reps w);
  i ← int_validator (models.id w);
  Some (mkWorkoutOut t l r i).
End validation.

End schemas.

(** ** The session: a unit of work over the table

    A handler runs against a [Session]: the table as committed so far and
    the mapped instances the session knows, each with its state.  A [ref]
    is a Python reference to such an instance, so that [commit] and
    [refresh] mutate the very object the handler holds. *)

Definition ref := nat.

Inductive ObjState :=
  | Transient
  | Pending
  | Persistent (key : Z)
  | Deleted (key : Z)
  | Detached.

Record Session := mkSession {
  table : database.Table;
  objects : list (models.Workout * ObjState);
}.

Inductive Exn :=
  | HTTPException (status_code : Z) (detail : string)
  | Unhandled (what : string).

Inductive Outcome (A : Type) :=
  | Return (a : A)
  | Raise (e : Exn).
Arguments Return {A} a.
Arguments Raise {A} e.

Definition Handler (A : Type) : Type := Session → Outcome A * Session.

Definition ret {A} (a : A) : Handler A := λ s, (Return a, s).

Definition raise {A} (e : Exn) : Handler A := λ s, (Raise e, s).

Definition bind {A B} (m : Handler A) (k : A → Handler B) : Handler B :=
  λ s, match m s with
       | (Return a, s') => k a s'
       | (Raise e, s') => (Raise e, s')
       end.

Declare Scope handler_scope.
Delimit Scope handler_scope with handler.
Notation "x <- m ; k" := (bind m (λ x, k))
  (at level 100, m at next level, right associativity) : handler_scope.
Notation "m ;; k" := (bind m (λ _, k))
  (at level 100, right associativity) : handler_scope.
Local Open Scope handler_scope.

(** [for x in items: body(x)] *)
Fixpoint for_each {A} (items : list A) (body : A → Handler unit) : Handler unit :=
  match items with
  | [] => ret tt
  | x :: rest => body x ;; for_each rest body
  end.

(** Allocation of a fresh instance in state [st]. *)
Definition alloc (w : models.Workout) (st : ObjState) : Handler ref :=
  λ s, (Return (length (objects s)),
        mkSession (table s) (objects s ++ [(w, st)])).

(** [models.Workout] called with the keyword arguments [kwargs]. *)
Definition Workout_new (kwargs : list (string * value)) : Handler ref :=
  match models.init models.blank kwargs with
  | Some w => alloc w Transient
  | None => raise (Unhandled "TypeError")
  end.

(** [setattr(obj, key, v)] on a referenced instance. *)
Definition setattr (obj : ref) (key : string) (v : value) : Handler unit :=
  λ s, match objects s !! obj with
       | Some (w, st) =>
           (Return tt,
            mkSession (table s) (<[obj := (models.setattr w key v, st)]> (objects s)))
       | None => (Raise (Unhandled "ReferenceError"), s)
       end.

(** [db.add(obj)] *)
Definition db_add (obj : ref) : Handler unit :=
  λ s, match objects s !! obj with
       | Some (w, Transient) =>
           (Return tt, mkSession (table s) (<[obj := (w, Pending)]> (objects s)))
       | Some _ => (Return tt, s)
       | None => (Raise (Unhandled "ReferenceError"), s)
       end.

(** [db.delete(obj)] *)
Definition db_delete (obj : ref) : Handler unit :=
  λ s, match objects s !! obj with
       | Some (w, Persistent key) =>
           (Return tt, mkSession (table s) (<[obj := (w, Deleted key)]> (objects s)))
       | Some _ => (Raise (Unhandled "InvalidRequestError"), s)
       | None => (Raise (Unhandled "ReferenceError"), s)
       end.

(** What the driver raises on a parameter it cannot bind. *)
Definition unbindable : Exn := Unhandled "OverflowError".

(** Whether the three columns an instance is written to can be bound. *)
Definition writable (w : models.Workout) : bool :=
  database.bindable (models.title w)
  && database.bindable (models.load w)
  && database.bindable (models.reps w).

(** What a flush does for one instance: an [INSERT] for a pending one
    (the table chooses the key when [id] is [None], and fails when it
    finds none), an [UPDATE] by identity key for a persistent one, a
    [DELETE] for a deleted one.  The parameters are bound first. *)
Definition flush_object `{database.Sqlite}
    (t : database.Table) (o : models.Workout * ObjState)
  : Outcome (database.Table * (models.Workout * ObjState)) :=
  match o.2 with
  | Pending =>
      if writable o.1 then
        match models.id o.1 with
        | VNone =>
            let k := database.next_rowid t in
            if decide (k ∈ database.ids t)
            then Raise (Unhandled "OperationalError")
            else Return (database.insert_row (models.to_row k o.1) t,
                         (models.setattr o.1 "id" (VInt k), Persistent k))
        | VInt k =>
            if database.fits k then
              if decide (k ∈ database.ids t)
              then Raise (Unhandled "IntegrityError")
              else Return (database.insert_row (models.to_row k o.1) t,
                           (o.1, Persistent k))
            else Raise unbindable
        | _ => Raise (Unhandled "IntegrityError")
        end
      else Raise unbindable
  | Persistent key =>
      if writable o.1 && database.fits key then
        match models.id o.1 with
        | VInt k =>
            if database.fits k then
              if decide (k ≠ key ∧ k ∈ database.ids t)
              then Raise (Unhandled "IntegrityError")
              else Return (database.update_row key (models.to_row k o.1) t,
                           (o.1, Persistent k))
            else Raise unbindable
        | _ => Raise (Unhandled "IntegrityError")
        end
      else Raise unbindable
  | Deleted key =>
      if database.fits key
      then Return (database.delete_row key t, (o.1, Detached))
      else Raise unbindable
  | Transient | Detached => Return (t, o)
  end.

Fixpoint flush `{database.Sqlite}
    (t : database.Table) (os : list (models.Workout * ObjState))
  : Outcome (database.Table * list (models.Workout * ObjState)) :=
  match os with
  | [] => Return (t, [])
  | o :: rest =>
      match flush_object t o with
      | Return (t', o') =>
          match flush t' rest with
          | Return (t'', rest') => Return (t'', o' :: rest')
          | Raise e => Raise e
          end
      | Raise e => Raise e
      end
  end.

(** [db.commit()]: flush, then make the result durable; a failing flush
    leaves the table as it was. *)
Definition db_commit `{database.Sqlite} : Handler unit :=
  λ s, match flush (table s) (objects s) with
       | Return (t, os) => (Return tt, mkSession t os)
       | Raise e => (Raise e, s)
       end.

(** [db.refresh(obj)]: reload the attributes from the row of the
    instance's identity key. *)
Definition db_refresh (obj : ref) : Handler unit :=
  λ s, match objects s !! obj with
       | Some (w, Persistent key) =>
           if database.fits key then
             match database.select_by_id key (table s) with
             | Some r =>
                 (Return tt,
                  mkSession (table s)
                            (<[obj := (models.of_row r, Persistent key)]> (objects s)))
             | None => (Raise (Unhandled "InvalidRequestError"), s)
             end
           else (Raise unbindable, s)
       | Some _ => (Raise (Unhandled "InvalidRequestError"), s)
       | None => (Raise (Unhandled "ReferenceError"), s)
       end.

(** [db.query(models.Workout).get(k)]; every handler issues its one query
    on a fresh session, so the row is always read from the table.  The
    key is a parameter of the query: one the driver cannot bind raises
    before anything is looked up. *)
Definition query_get (k : Z) : Handler (option ref) :=
  λ s, if database.fits k then
         match database.select_by_id k (table s) with
         | Some r =>
             (obj <- alloc (models.of_row r) (Persistent k); ret (Some obj)) s
         | None => ret None s
         end
       else raise unbindable s.

(** [db.query(models.Workout).all()]: one instance per row, in the order
    of the table. *)
Fixpoint load_all (rows : database.Table) : Handler (list ref) :=
  match rows with
  | [] => ret []
  | r :: rest =>
      obj <- alloc (models.of_row r) (Persistent (database.row_id r));
      objs <- load_all rest;
      ret (obj :: objs)
  end.

Definition query_all : Handler (list ref) := λ s, load_all (table s) s.

(** ** app/routers/workouts.py *)

Definition create_workout `{database.Sqlite} (workout : schemas.WorkoutCreate)
  : Handler ref :=
  db_workout <- Workout_new (schemas.dict workout);
  db_add db_workout;;
  db_commit;;
  db_refresh db_workout;;
  ret db_workout.

Definition get_workouts : Handler (list ref) :=
  query_all.

Definition get_workout (workout_id : Z) : Handler ref :=
  workout <- query_get workout_id;
  match workout with
  | None => raise (HTTPException 404 "Workout not found")
  | Some workout => ret workout
  end.

Definition update_workout `{database.Sqlite}
    (workout_id : Z) (update : schemas.WorkoutUpdate) : Handler ref :=
  workout <- query_get workout_id;
  match workout with
  | None => raise (HTTPException 404 "Workout not found")
  | Some workout =>
      for_each (schemas.dict update) (λ '(key, value), setattr workout key value);;
      db_commit;;
      db_refresh workout;;
      ret workout
  end.

Definition delete_workout `{database.Sqlite} (workout_id : Z) : Handler unit :=
  workout <- query_get workout_id;
  match workout with
  | None => raise (HTTPException 404 "Workout not found")
  | Some workout =>
      db_delete workout;;
      db_commit;;
      ret tt
  end.

(** ** app/main.py: the application

    A call is routed to its handler.  The framework validates the path
    parameter and the body first and calls the handler only with valid
    ones; it opens the session for the call ([get_db]), shapes the
    returned instance through the route's response model, and closes the
    session on every exit path, which drops whatever was not committed. *)


(** A request whose path parameter has passed validation:
    [workout_id: int]. *)
Inductive Request :=
  | POST_workouts (body : value)
  | GET_workouts
  | GET_workout (workout_id : Z)
  | PUT_workout (workout_id : Z) (body : value)
  | DELETE_workout (workout_id : Z).

Inductive Content :=
  | Json (out : schemas.WorkoutOut)
  | JsonList (outs : list schemas.WorkoutOut)
  | Detail (detail : string)
  | ValidationErrors
  | NoContent
  | InternalServerError.

Record Response := mkResponse {
  status : Z;
  content : Content;
}.

(** [SessionLocal()]: a session on the table, knowing no instance yet. *)
Definition get_db (t : database.Table) : Session := mkSession t [].

(** [db.close()]: what stays is the committed table. *)
Definition close (s : Session) : database.Table := table s.

Definition error_response (e : Exn) : Response :=
  match e with
  | HTTPException status_code detail => mkResponse status_code (Detail detail)
  | Unhandled _ => mkResponse 500 InternalServerError
  end.

Section app.
Context `{Pydantic} `{database.Sqlite}.

(** [response_model=schemas.WorkoutOut] *)
Definition render_one (code : Z) (obj : ref) (s : Session) : option Response :=
  o ← objects s !! obj;
  out ← schemas.from_orm o.1;
  Some (mkResponse code (Json out)).

(** [response_model=list[schemas.WorkoutOut]] *)
Definition render_list (code : Z) (objs : list ref) (s : Session) : option Response :=
  outs ← mapM (λ obj, o ← objects s !! obj; schemas.from_orm o.1) objs;
  Some (mkResponse code (JsonList outs)).

(** A route without response model that returns [None]. *)
Definition render_none (code : Z) (_ : unit) (_ : Session) : option Response :=
  Some (mkResponse code NoContent).

(** One call of a handler inside its session. *)
Definition endpoint {A} (h : Handler A) (render : A → Session → option Response)
    (t : database.Table) : Response * database.Table :=
  match h (get_db t) with
  | (Return a, s) =>
      (default (mkResponse 500 InternalServerError) (render a s), close s)
  | (Raise e, s) => (error_response e, close s)
  end.

(** A route whose body is declared as a [WorkoutBase]. *)
Definition with_body (body : value)
    (route : schemas.WorkoutBase → database.Table → Response * database.Table)
    (t : database.Table) : Response * database.Table :=
  match schemas.parse body with
  | Some payload => route payload t
  | None => (mkResponse 422 ValidationErrors, t)
  end.

Definition serve (req : Request) (t : database.Table) : Response * database.Table :=
  match req with
  | POST_workouts body =>
      with_body body (λ workout, endpoint (create_workout workout) (render_one 201)) t
  | GET_workouts =>
      endpoint get_workouts (render_list 200) t
  | GET_workout workout_id =>
      endpoint (get_workout workout_id) (render_one 200) t
  | PUT_workout workout_id body =>
      with_body body
        (λ update, endpoint (update_workout workout_id update) (render_one 200)) t
  | DELETE_workout workout_id =>
      endpoint (delete_workout workout_id) (render_none 204) t
  end.




(** The tables the service can be in: [create_all] starts from an empty
    table, and every request moves on from there. *)
Inductive reachable : database.Table → Prop :=
  | reachable_empty : reachable []
  | reachable_serve req t : reachable t → reachable (serve req t).2.

End app.

(** * Vocabulary of the statements *)

(** The row a payload is stored as under key [k], and the output it is
    shown as. *)
Definition stored (k : Z) (w : schemas.WorkoutBase) : database.Row :=
  database.mkRow k (VStr (schemas.title w)) (VInt (schemas.load w))
                 (VInt (schemas.reps w)).

Definition shown (k : Z) (w : schemas.WorkoutBase) : schemas.WorkoutOut :=
  schemas.mkWorkoutOut (schemas.title w) (schemas.load w) (schemas.reps w) k.

(** A payload the store can hold: load and reps within its integers. *)
Definition storable (w : schemas.WorkoutBase) : bool :=
  database.fits (schemas.load w) && database.fits (schemas.reps w).

(** A table that still numbers its rows by counting: its largest key is
    below the largest integer of the store. *)
Definition has_room (t : database.Table) : Prop :=
  Forall (λ k, k < database.int64_max) (database.ids t).

(** The instances [all()] hands out for the rows of a table. *)
Definition loaded (rows : database.Table) : list (models.Workout * ObjState) :=
  (λ r, (models.of_row r, Persistent (database.row_id r))) <$> rows.

Definition not_found : Response := mkResponse 404 (Detail "Workout not found").

Definition unprocessable : Response := mkResponse 422 ValidationErrors.

Definition server_error : Response := mkResponse 500 InternalServerError.

(** An output shows a row when the row holds exactly its four fields. *)
Definition represents (out : schemas.WorkoutOut) (r : database.Row) : Prop :=
  r = database.mkRow (schemas.out_id out) (VStr (schemas.out_title out))
                     (VInt (schemas.out_load out)) (VInt (schemas.out_reps out)).

(** A row as the handlers write them: a string title, integer load and
    reps that the store can hold. *)
Definition typed (r : database.Row) : Prop :=
  ∃ w, r = stored (database.row_id r) w ∧ storable w = true.

Definition well_formed (t : database.Table) : Prop :=
  NoDup (database.ids t)
  ∧ Forall (λ r, 0 < database.row_id r ≤ database.int64_max ∧ typed r) t.

(** The rows of a table with another key than [k]. *)
Definition others (k : Z) (t : database.Table) : database.Table :=
  filter (λ r, database.row_id r ≠ k) t.

(** The key a request is about: the path parameter, or the key the table
    will generate for a create; the list route is about none. *)
Definition addressed `{database.Sqlite} (req : Request) (t : database.Table)
  : option Z :=
  match req with
  | POST_workouts _ => Some (database.next_rowid t)
  | GET_workouts => None
  | GET_workout k | PUT_workout k _ | DELETE_workout k => Some k
  end.

(** A body carries a payload when it is an object whose title is that
    very string and whose load and reps are those very integers; further
    keys may be present. *)
Definition carries (body : value) (w : schemas.WorkoutBase) : Prop :=
  match body with
  | VDict items =>
      dict_get "title" items = Some (VStr (schemas.title w))
      ∧ dict_get "load" items = Some (VInt (schemas.load w))
      ∧ dict_get "reps" items = Some (VInt (schemas.reps w))
  | _ => False
  end.

(** A field of a request body is refused when it is absent or when its
    validator rejects the value found under its key. *)
Definition refused {A} (validator : value → option A) (key : string)
    (items : list (string * value)) : Prop :=
  match dict_get key items with
  | None => True
  | Some v => validator v = None
  end.

(** A request that only reads. *)
Definition reads (req : Request) : bool :=
  match req with
  | GET_workouts | GET_workout _ => true
  | POST_workouts _ | PUT_workout _ _ | DELETE_workout _ => false
  end.

(** The [{workout_id}] path parameter of a request whose route has one. *)
Definition path_id (req : Request) : option Z :=
  match req with
  | GET_workout k | PUT_workout k _ | DELETE_workout k => Some k
  | POST_workouts _ | GET_workouts => None
  end.

(** The JSON object an output is sent as, in field order. *)
Definition json_of (out : schemas.WorkoutOut) : value :=
  VDict [("title", VStr (schemas.out_title out));
         ("load", VInt (schemas.out_load out));
         ("reps", VInt (schemas.out_reps out));
         ("id", VInt (schemas.out_id out))].


(** The handlers that never call [db.commit()]: built from the other
    session calls by sequencing. *)
Inductive commit_free : ∀ {A : Type}, Handler A → Prop :=
  | commit_free_ret {A} (a : A) : commit_free (ret a)
  | commit_free_raise {A} (e : Exn) : commit_free (raise (A := A) e)
  | commit_free_bind {A B} (m : Handler A) (k : A → Handler B) :
      commit_free m → (∀ a, commit_free (k a)) → commit_free (bind m k)
  | commit_free_new kwargs : commit_free (Workout_new kwargs)
  | commit_free_setattr obj key v : commit_free (setattr obj key v)
  | commit_free_add obj : commit_free (db_add obj)
  | commit_free_delete obj : commit_free (db_delete obj)
  | commit_free_refresh obj : commit_free (db_refresh obj)
  | commit_free_get k : commit_free (query_get k)
  | commit_free_all : commit_free query_all.

Section vocabulary.
Context `{Pydantic} `{database.Sqlite}.
Import database.

(** A body is malformed when it is no object, or when one of the three
    fields is refused. *)
Definition malformed (body : value) : Prop :=
  match body with
  | VDict items =>
      refused str_validator "title" items
      ∨ refused int_validator "load" items
      ∨ refused int_validator "reps" items
  | _ => True
  end.

(** The table a request leaves behind: a write needs parameters the
    driver can bind, a create a key the table can give, an update or a
    delete a row under the key. *)
Definition table_after (req : Request) (t : Table) : Table :=
  match req with
  | POST_workouts body =>
      match schemas.parse body with
      | Some workout =>
          if storable workout && bool_decide (next_rowid t ∉ ids t)
          then insert_row (stored (next_rowid t) workout) t
          else t
      | None => t
      end
  | GET_workouts | GET_workout _ => t
  | PUT_workout k body =>
      match schemas.parse body with
      | Some update =>
          if fits k && storable update && bool_decide (k ∈ ids t)
          then update_row k (stored k update) t
          else t
      | None => t
      end
  | DELETE_workout k =>
      if fits k && bool_decide (k ∈ ids t) then delete_row k t else t
  end.


(** A sequence of requests, served one after the other. *)
Fixpoint run (reqs : list Request) (t : Table) : list Response * Table :=
  match reqs with
  | [] => ([], t)
  | req :: rest =>
      let (resp, t') := serve req t in
      let (resps, t'') := run rest t' in
      (resp :: resps, t'')
  end.

End vocabulary.

(** The store of the examples: at the end of the range its candidate is
    always 1. *)
#[export] Instance first_key : database.Sqlite :=
  {| database.random_rowid := λ _, 1;
     database.random_rowid_range :=
       λ _, ltac:(cbv; split; discriminate) |}.

(** The bodies of the specification, and the table after a bench press
    and a squat have been created on the empty table. *)

Definition bench : value :=
  VDict [("title", VStr "Bench"); ("load", VInt 80); ("reps", VInt 5)].

Definition squat : value :=
  VDict [("title", VStr "Squat"); ("load", VInt 100); ("reps", VInt 8)].

Definition bench_payload : schemas.WorkoutBase := schemas.mkWorkoutBase "Bench" 80 5.

Definition squat_payload : schemas.WorkoutBase := schemas.mkWorkoutBase "Squat" 100 8.

(** A body without [load], and one whose [load] is no integer. *)
Definition no_load : value :=
  VDict [("title", VStr "Bench"); ("reps", VInt 5)].

Definition heavy_load : value :=
  VDict [("title", VStr "Bench"); ("load", VStr "heavy"); ("reps", VInt 5)].


Definition too_heavy : value :=
  VDict [("title", VStr "Bench"); ("load", VInt 9223372036854775808);
         ("reps", VInt 5)].


Definition too_few : value :=
  VDict [("title", VStr "Squat"); ("load", VInt 100);
         ("reps", VInt (-9223372036854775809))].

Definition gym : database.Table :=
  [stored 1 bench_payload; stored 2 squat_payload].

(** * Properties *)

(** ** The statements on the table *)
Section table_facts.
Context `{database.Sqlite}.
Import database.

Lemma fits_range n : fits n = true ↔ int64_min ≤ n ≤ int64_max.
Proof. unfold fits. rewrite andb_true_iff, !Z.leb_le. done. Qed.

Lemma select_by_id_Some k t r :
  select_by_id k t = Some r → row_id r = k ∧ r ∈ t.
Proof.
  induction t as [|r0 t IH]; simpl; [done|].
  case_decide.
  - intros [= ->]. split; [done | left].
  - intros Hs. destruct (IH Hs). split; [done | by right].
Qed.

Lemma select_by_id_None k t :
  select_by_id k t = None ↔ k ∉ ids t.
Proof.
  unfold ids. induction t as [|r0 t IH]; simpl.
  - split; [intros _; apply not_elem_of_nil | done].
  - rewrite not_elem_of_cons, <-IH. case_decide; split; try done.
    + by intros [? _].
    + by intros [_ ?].
Qed.

Lemma select_by_id_is_Some k t :
  is_Some (select_by_id k t) ↔ k ∈ ids t.
Proof.
  rewrite <-not_eq_None_Some, select_by_id_None.
  split; [apply dec_stable | by intros ? ?].
Qed.

Lemma select_by_id_app k t1 t2 :
  select_by_id k (t1 ++ t2) =
    match select_by_id k t1 with
    | Some r => Some r
    | None => select_by_id k t2
    end.
Proof.
  induction t1 as [|r0 t1 IH]; simpl; [done|]. by case_decide.
Qed.

Lemma select_insert_new t r :
  row_id r ∉ ids t → select_by_id (row_id r) (insert_row r t) = Some r.
Proof.
  intros Hfresh. unfold insert_row. rewrite select_by_id_app.
  apply select_by_id_None in Hfresh as ->. simpl. by rewrite decide_True.
Qed.

Lemma ids_insert_row t r : ids (insert_row r t) = ids t ++ [row_id r].
Proof. unfold ids, insert_row. by rewrite fmap_app. Qed.

Lemma ids_update_row k r t :
  row_id r = k → ids (update_row k r t) = ids t.
Proof.
  intros Hk. unfold ids. induction t as [|r0 t IH]; simpl; [done|].
  case_decide; rewrite fmap_cons, IH; [|done]. f_equal. congruence.
Qed.

Lemma select_update_same k r t :
  row_id r = k → k ∈ ids t → select_by_id k (update_row k r t) = Some r.
Proof.
  intros Hk. unfold ids. induction t as [|r0 t IH]; simpl.
  - by intros ?%elem_of_nil.
  - intros Hin. destruct (decide (row_id r0 = k)) as [Heq|Hne]; simpl.
    + by rewrite decide_True.
    + rewrite decide_False by done. apply IH.
      apply elem_of_cons in Hin as [?|?]; [congruence | done].
Qed.


Lemma ids_delete_row k t :
  ids (delete_row k t) = filter (λ k', k' ≠ k) (ids t).
Proof.
  unfold ids. induction t as [|r0 t IH]; [done|].
  cbn [delete_row]. rewrite fmap_cons.
  destruct (decide (row_id r0 = k)) as [Heq|Hne].
  - rewrite filter_cons_False by (intros Hk; by apply Hk). done.
  - rewrite filter_cons_True by done. by rewrite fmap_cons, IH.
Qed.

Lemma select_delete_same k t : select_by_id k (delete_row k t) = None.
Proof.
  apply select_by_id_None. rewrite ids_delete_row.
  intros [? _]%list_elem_of_filter. done.
Qed.

Lemma delete_row_absent k t : k ∉ ids t → delete_row k t = t.
Proof.
  unfold ids. induction t as [|r0 t IH]; [done|].
  cbn [delete_row]. rewrite fmap_cons, not_elem_of_cons. intros [Hne Hout].
  rewrite decide_False by done. by rewrite IH.
Qed.

Lemma foldr_max_ge k ks : k ≤ foldr Z.max k ks.
Proof. induction ks; simpl; lia. Qed.






(** On positive keys the generated key is a positive integer of the
    store, with or without room. *)
Lemma next_rowid_range t :
  Forall (λ k, 0 < k) (ids t) → 0 < next_rowid t ≤ int64_max.
Proof.
  unfold next_rowid. destruct (ids t) as [|k0 ks] eqn:Hids.
  - intros _. unfold int64_max. lia.
  - intros [Hk0 _]%Forall_cons_1. pose proof (foldr_max_ge k0 ks).
    case_decide; [lia|]. pose proof (random_rowid_range (k0 :: ks)). lia.
Qed.

End table_facts.

(** ** What each handler does on a fresh session *)
Section handler_facts.
Context `{database.Sqlite}.
Import database.

(** The instance the constructor makes of a payload can be written when
    the payload can be stored. *)
Lemma writable_payload (i : value) (w : schemas.WorkoutBase) :
  writable (models.mkWorkout i (VStr (schemas.title w))
              (VInt (schemas.load w)) (VInt (schemas.reps w)))
  = storable w.
Proof. reflexivity. Qed.

Lemma create_workout_runs workout t :
  let k := next_rowid t in
  storable workout = true → k ∉ ids t → fits k = true →
  create_workout workout (get_db t) =
    (Return 0%nat,
     mkSession (insert_row (stored k workout) t)
               [(models.of_row (stored k workout), Persistent k)]).
Proof.
  intros k Hstorable Hfresh Hfits.
  unfold create_workout, bind, Workout_new, get_db. simpl.
  unfold db_commit. simpl. unfold flush_object. cbn [fst snd].
  change (writable _) with (storable workout). rewrite Hstorable.
  cbn [models.id].
  fold k. rewrite decide_False by done. simpl.
  unfold db_refresh. simpl. rewrite Hfits.
  change (models.to_row k _) with (stored k workout).
  pose proof (select_insert_new t (stored k workout) Hfresh) as Hs.
  change (row_id (stored k workout)) with k in Hs.
  by rewrite Hs.
Qed.

(** A payload the store cannot hold stops the create at the commit, and
    so does a table that finds no key: nothing is written. *)
Lemma create_workout_fails workout t :
  storable workout = false ∨ next_rowid t ∈ ids t →
  ∃ e s, create_workout workout (get_db t) = (Raise (Unhandled e), s)
         ∧ table s = t.
Proof.
  intros Hwhy.
  unfold create_workout, bind, Workout_new, get_db. simpl.
  unfold db_commit. simpl. unfold flush_object. cbn [fst snd].
  change (writable _) with (storable workout). destruct (storable workout).
  - destruct Hwhy as [?|Hused]; [done|]. cbn [models.id].
    rewrite decide_True by done. simpl. by eexists _, _.
  - simpl. by eexists _, _.
Qed.

(** On a table whose generated key is beyond the store the refresh
    raises after the commit. *)
Lemma create_workout_strays workout t :
  let k := next_rowid t in
  storable workout = true → k ∉ ids t → fits k = false →
  ∃ e s, create_workout workout (get_db t) = (Raise (Unhandled e), s)
         ∧ table s = insert_row (stored k workout) t.
Proof.
  intros k Hstorable Hfresh Hfits.
  unfold create_workout, bind, Workout_new, get_db. simpl.
  unfold db_commit. simpl. unfold flush_object. cbn [fst snd].
  change (writable _) with (storable workout). rewrite Hstorable.
  cbn [models.id].
  fold k. rewrite decide_False by done. simpl.
  unfold db_refresh. simpl. rewrite Hfits. by eexists _, _.
Qed.

Lemma get_workout_found k t r :
  fits k = true → select_by_id k t = Some r →
  get_workout k (get_db t) =
    (Return 0%nat, mkSession t [(models.of_row r, Persistent k)]).
Proof.
  intros Hfits Hsel. unfold get_workout, bind, query_get, get_db. simpl.
  by rewrite Hfits, Hsel.
Qed.

Lemma get_workout_missing k t :
  fits k = true → select_by_id k t = None →
  get_workout k (get_db t) =
    (Raise (HTTPException 404 "Workout not found"), get_db t).
Proof.
  intros Hfits Hsel. unfold get_workout, bind, query_get, get_db. simpl.
  by rewrite Hfits, Hsel.
Qed.

(** A key the driver cannot bind stops the three handlers at their
    query. *)
Lemma get_workout_unbindable k t :
  fits k = false → get_workout k (get_db t) = (Raise unbindable, get_db t).
Proof.
  intros Hfits. unfold get_workout, bind, query_get, get_db. simpl.
  by rewrite Hfits.
Qed.

Lemma update_workout_unbindable k update t :
  fits k = false →
  update_workout k update (get_db t) = (Raise unbindable, get_db t).
Proof.
  intros Hfits. unfold update_workout, bind, query_get, get_db. simpl.
  by rewrite Hfits.
Qed.

Lemma delete_workout_unbindable k t :
  fits k = false → delete_workout k (get_db t) = (Raise unbindable, get_db t).
Proof.
  intros Hfits. unfold delete_workout, bind, query_get, get_db. simpl.
  by rewrite Hfits.
Qed.

(** The loop of [update_workout] sets the three payload attributes and
    leaves [id] alone. *)
Lemma setattr_payload w update :
  models.setattr
    (models.setattr
       (models.setattr w "title" (VStr (schemas.title update)))
       "load" (VInt (schemas.load update)))
    "reps" (VInt (schemas.reps update)) =
  models.mkWorkout (models.id w) (VStr (schemas.title update))
                   (VInt (schemas.load update)) (VInt (schemas.reps update)).
Proof. reflexivity. Qed.

Lemma update_workout_found k update t r :
  fits k = true → select_by_id k t = Some r → storable update = true →
  update_workout k update (get_db t) =
    (Return 0%nat,
     mkSession (update_row k (stored k update) t)
               [(models.of_row (stored k update), Persistent k)]).
Proof.
  intros Hfits Hsel Hstorable.
  destruct (select_by_id_Some _ _ _ Hsel) as [Hk _].
  assert (k ∈ ids t) as Hin
    by (apply select_by_id_is_Some; by rewrite Hsel).
  destruct r as [k0 ti lo re]; simpl in Hk; subst k0.
  unfold update_workout, bind, query_get, get_db. simpl.
  rewrite Hfits, Hsel. simpl. unfold db_commit. simpl.
  rewrite setattr_payload. unfold flush_object. cbn [fst snd].
  rewrite writable_payload, Hstorable, Hfits.
  cbn [models.id models.of_row row_id andb].
  rewrite Hfits. rewrite decide_False by (by intros [? _]).
  unfold db_refresh. simpl. rewrite Hfits.
  change (models.to_row k _) with (stored k update).
  by rewrite (select_update_same k (stored k update) t eq_refl Hin).
Qed.

(** A payload the store cannot hold stops the update at the commit:
    nothing is written. *)
Lemma update_workout_fails k update t r :
  fits k = true → select_by_id k t = Some r → storable update = false →
  ∃ s, update_workout k update (get_db t) = (Raise unbindable, s)
       ∧ table s = t.
Proof.
  intros Hfits Hsel Hstorable.
  unfold update_workout, bind, query_get, get_db. simpl.
  rewrite Hfits, Hsel. simpl. unfold db_commit. simpl.
  rewrite setattr_payload. unfold flush_object. cbn [fst snd].
  rewrite writable_payload, Hstorable. simpl. by eexists.
Qed.

Lemma update_workout_missing k update t :
  fits k = true → select_by_id k t = None →
  update_workout k update (get_db t) =
    (Raise (HTTPException 404 "Workout not found"), get_db t).
Proof.
  intros Hfits Hsel. unfold update_workout, bind, query_get, get_db. simpl.
  by rewrite Hfits, Hsel.
Qed.

Lemma delete_workout_found k t r :
  fits k = true → select_by_id k t = Some r →
  delete_workout k (get_db t) =
    (Return (), mkSession (delete_row k t) [(models.of_row r, Detached)]).
Proof.
  intros Hfits Hsel. unfold delete_workout, bind, query_get, get_db. simpl.
  rewrite Hfits, Hsel. simpl. unfold db_commit. simpl.
  unfold flush_object. cbn [fst snd]. by rewrite Hfits.
Qed.

Lemma delete_workout_missing k t :
  fits k = true → select_by_id k t = None →
  delete_workout k (get_db t) =
    (Raise (HTTPException 404 "Workout not found"), get_db t).
Proof.
  intros Hfits Hsel. unfold delete_workout, bind, query_get, get_db. simpl.
  by rewrite Hfits, Hsel.
Qed.

Lemma load_all_runs rows s :
  load_all rows s =
    (Return (seq (length (objects s)) (length rows)),
     mkSession (table s) (objects s ++ loaded rows)).
Proof.
  revert s. induction rows as [|r rows IH]; intros [t os]; simpl.
  - unfold ret. by rewrite app_nil_r.
  - unfold bind, alloc. simpl. rewrite IH. simpl. unfold ret.
    rewrite length_app. simpl. rewrite Nat.add_1_r, <-app_assoc. done.
Qed.

Lemma get_workouts_runs t :
  get_workouts (get_db t) =
    (Return (seq 0 (length t)), mkSession t (loaded t)).
Proof. unfold get_workouts, query_all. by rewrite load_all_runs. Qed.

End handler_facts.

(** ** What each request does to the service *)
Section service.
Context `{Pydantic} `{database.Sqlite}.
Import database.

Lemma from_orm_stored k w :
  schemas.from_orm (models.of_row (stored k w)) = Some (shown k w).
Proof.
  unfold schemas.from_orm. simpl.
  by rewrite str_validator_str, !int_validator_int.
Qed.

Lemma represents_shown k w : represents (shown k w) (stored k w).
Proof. reflexivity. Qed.

(** Create, case by case: the payload must be storable and the table
    must give a key; the answer is 201 when the key can be looked up
    again. *)
Lemma serve_create body workout t :
  schemas.parse body = Some workout →
  serve (POST_workouts body) t =
    if storable workout && bool_decide (next_rowid t ∉ ids t)
    then (if fits (next_rowid t)
          then mkResponse 201 (Json (shown (next_rowid t) workout))
          else server_error,
          insert_row (stored (next_rowid t) workout) t)
    else (server_error, t).
Proof.
  intros Hparse. unfold serve, with_body, endpoint. rewrite Hparse.
  destruct (storable workout) eqn:Hstorable; cbn [andb].
  - case_bool_decide as Hfresh.
    + destruct (fits (next_rowid t)) eqn:Hfits.
      * rewrite create_workout_runs by done. unfold render_one. simpl.
        by rewrite from_orm_stored.
      * destruct (create_workout_strays workout t) as (e & s & -> & Htable);
          [done..|]. unfold close. by rewrite Htable.
    + destruct (create_workout_fails workout t) as (e & s & -> & Htable);
        [by right|]. unfold close. by rewrite Htable.
  - destruct (create_workout_fails workout t) as (e & s & -> & Htable);
      [by left|]. unfold close. by rewrite Htable.
Qed.

Lemma serve_create_invalid body t :
  schemas.parse body = None → serve (POST_workouts body) t = (unprocessable, t).
Proof. intros Hparse. unfold serve, with_body. by rewrite Hparse. Qed.


(** What a create that answered 201 has done. *)
Lemma serve_create_201 body t out t' :
  serve (POST_workouts body) t = (mkResponse 201 (Json out), t') →
  ∃ workout,
    schemas.parse body = Some workout
    ∧ storable workout = true
    ∧ (next_rowid t ∉ ids t)
    ∧ fits (next_rowid t) = true
    ∧ out = shown (next_rowid t) workout
    ∧ t' = insert_row (stored (next_rowid t) workout) t.
Proof.
  destruct (schemas.parse body) as [workout|] eqn:Hparse.
  - rewrite (serve_create _ _ _ Hparse).
    destruct (storable workout) eqn:Hstorable; cbn [andb]; [|done].
    case_bool_decide; [|done].
    destruct (fits (next_rowid t)) eqn:Hfits; [|done].
    intros [= <- <-]. exists workout. by split_and!.
  - by rewrite (serve_create_invalid _ _ Hparse).
Qed.

(** Get-one, case by case. *)
Lemma serve_get k t :
  serve (GET_workout k) t =
    (if fits k then
       match select_by_id k t with
       | Some r =>
           default server_error
             (out ← schemas.from_orm (models.of_row r);
              Some (mkResponse 200 (Json out)))
       | None => not_found
       end
     else server_error,
     t).
Proof.
  unfold serve, endpoint. destruct (fits k) eqn:Hfits.
  - destruct (select_by_id k t) as [r|] eqn:Hsel.
    + by rewrite (get_workout_found k t r).
    + by rewrite get_workout_missing.
  - by rewrite get_workout_unbindable.
Qed.

Lemma serve_get_stored k t w :
  fits k = true → select_by_id k t = Some (stored k w) →
  serve (GET_workout k) t = (mkResponse 200 (Json (shown k w)), t).
Proof. intros Hfits Hsel. by rewrite serve_get, Hfits, Hsel, from_orm_stored. Qed.

Lemma serve_get_missing k t :
  fits k = true → k ∉ ids t → serve (GET_workout k) t = (not_found, t).
Proof.
  intros Hfits Hsel%select_by_id_None. by rewrite serve_get, Hfits, Hsel.
Qed.

(** Update, case by case. *)
Lemma serve_update k body update t :
  schemas.parse body = Some update →
  serve (PUT_workout k body) t =
    if fits k then
      match select_by_id k t with
      | Some _ =>
          if storable update
          then (mkResponse 200 (Json (shown k update)),
                update_row k (stored k update) t)
          else (server_error, t)
      | None => (not_found, t)
      end
    else (server_error, t).
Proof.
  intros Hparse. unfold serve, with_body, endpoint. rewrite Hparse.
  destruct (fits k) eqn:Hfits.
  - destruct (select_by_id k t) as [r|] eqn:Hsel.
    + destruct (storable update) eqn:Hstorable.
      * rewrite (update_workout_found k update t r) by done.
        unfold render_one. simpl. by rewrite from_orm_stored.
      * destruct (update_workout_fails k update t r) as (s & -> & Htable);
          [done..|]. unfold close. by rewrite Htable.
    + by rewrite update_workout_missing.
  - by rewrite update_workout_unbindable.
Qed.

Lemma serve_update_invalid k body t :
  schemas.parse body = None → serve (PUT_workout k body) t = (unprocessable, t).
Proof. intros Hparse. unfold serve, with_body. by rewrite Hparse. Qed.

Lemma serve_update_found k body update t :
  schemas.parse body = Some update →
  fits k = true → k ∈ ids t → storable update = true →
  serve (PUT_workout k body) t =
    (mkResponse 200 (Json (shown k update)), update_row k (stored k update) t).
Proof.
  intros Hparse Hfits [r Hsel]%select_by_id_is_Some Hstorable.
  by rewrite (serve_update _ _ _ _ Hparse), Hfits, Hsel, Hstorable.
Qed.

Lemma serve_update_missing k body update t :
  schemas.parse body = Some update → fits k = true → k ∉ ids t →
  serve (PUT_workout k body) t = (not_found, t).
Proof.
  intros Hparse Hfits Hsel%select_by_id_None.
  by rewrite (serve_update _ _ _ _ Hparse), Hfits, Hsel.
Qed.

(** Delete, case by case. *)
Lemma serve_delete k t :
  serve (DELETE_workout k) t =
    if fits k then
      match select_by_id k t with
      | Some _ => (mkResponse 204 NoContent, delete_row k t)
      | None => (not_found, t)
      end
    else (server_error, t).
Proof.
  unfold serve, endpoint. destruct (fits k) eqn:Hfits.
  - destruct (select_by_id k t) as [r|] eqn:Hsel.
    + by rewrite (delete_workout_found k t r).
    + by rewrite delete_workout_missing.
  - by rewrite delete_workout_unbindable.
Qed.

Lemma serve_delete_found k t :
  fits k = true → k ∈ ids t →
  serve (DELETE_workout k) t = (mkResponse 204 NoContent, delete_row k t).
Proof.
  intros Hfits [r Hsel]%select_by_id_is_Some. by rewrite serve_delete, Hfits, Hsel.
Qed.

Lemma serve_delete_missing k t :
  fits k = true → k ∉ ids t → serve (DELETE_workout k) t = (not_found, t).
Proof.
  intros Hfits Hsel%select_by_id_None. by rewrite serve_delete, Hfits, Hsel.
Qed.

(** Reading the instances of [all()] back, one per row. *)
Lemma render_loaded (os0 : list (models.Workout * ObjState)) rows :
  mapM (λ obj : ref, o ← (os0 ++ loaded rows) !! obj; schemas.from_orm o.1)
       (seq (length os0) (length rows)) =
  mapM (λ r, schemas.from_orm (models.of_row r)) rows.
Proof.
  revert os0. induction rows as [|r rows IH]; intros os0; [done|].
  cbn [length seq mapM]. rewrite lookup_app_r by lia.
  rewrite Nat.sub_diag. cbn [loaded fmap list_fmap lookup list_lookup].
  specialize (IH (os0 ++ [(models.of_row r, Persistent (row_id r))])).
  rewrite length_app, Nat.add_1_r, <-app_assoc in IH.
  cbn [app] in IH. unfold loaded in IH. by rewrite IH.
Qed.

Lemma serve_list t :
  serve GET_workouts t =
    (default (mkResponse 500 InternalServerError)
       (outs ← mapM (λ r, schemas.from_orm (models.of_row r)) t;
        Some (mkResponse 200 (JsonList outs))),
     t).
Proof.
  unfold serve, endpoint. rewrite get_workouts_runs. unfold render_list.
  cbn [objects close table].
  pose proof (render_loaded [] t) as Hread. cbn [app length] in Hread.
  by rewrite Hread.
Qed.

(** The table a request leaves is the one [table_after] computes. *)
Lemma serve_table req t : (serve req t).2 = table_after req t.
Proof.
  destruct req as [body| |k|k body|k]; cbn [table_after].
  - destruct (schemas.parse body) as [workout|] eqn:Hparse.
    + rewrite (serve_create _ _ _ Hparse).
      by destruct (storable workout && bool_decide (next_rowid t ∉ ids t)).
    + by rewrite (serve_create_invalid _ _ Hparse).
  - by rewrite serve_list.
  - by rewrite serve_get.
  - destruct (schemas.parse body) as [update|] eqn:Hparse.
    + rewrite (serve_update _ _ _ _ Hparse). destruct (fits k); [|done].
      destruct (select_by_id k t) as [r|] eqn:Hsel.
      * rewrite bool_decide_true
          by (apply select_by_id_is_Some; by rewrite Hsel).
        by destruct (storable update).
      * apply select_by_id_None in Hsel. rewrite bool_decide_false by done.
        by rewrite andb_false_r.
    + by rewrite (serve_update_invalid _ _ _ Hparse).
  - rewrite serve_delete. destruct (fits k); [|done].
    destruct (select_by_id k t) as [r|] eqn:Hsel.
    + by rewrite bool_decide_true
        by (apply select_by_id_is_Some; by rewrite Hsel).
    + apply select_by_id_None in Hsel. by rewrite bool_decide_false.
Qed.

End service.

(** ** The invariant of the table *)
Section invariant.
Context `{Pydantic} `{database.Sqlite}.
Import database.

Lemma Forall_update_row (P : Row → Prop) k r t :
  P r → Forall P t → Forall P (update_row k r t).
Proof.
  intros Hr. induction 1 as [|r0 t Hr0 Ht IH]; simpl; [constructor|].
  case_decide; by constructor.
Qed.

Lemma Forall_delete_row (P : Row → Prop) k t :
  Forall P t → Forall P (delete_row k t).
Proof.
  induction 1 as [|r0 t Hr0 Ht IH]; simpl; [constructor|].
  case_decide; [done | by constructor].
Qed.

Lemma well_formed_key t k :
  well_formed t → k ∈ ids t → 0 < k ≤ int64_max.
Proof.
  intros [_ Hrows] (r & -> & Hr)%list_elem_of_fmap.
  rewrite Forall_forall in Hrows. by destruct (Hrows r Hr).
Qed.

Lemma well_formed_positive t k : well_formed t → k ∈ ids t → 0 < k.
Proof. intros Hwf Hin. by destruct (well_formed_key t k Hwf Hin). Qed.

Lemma well_formed_fits t k : well_formed t → k ∈ ids t → fits k = true.
Proof.
  intros Hwf Hin. destruct (well_formed_key t k Hwf Hin).
  apply fits_range. unfold int64_min. lia.
Qed.

(** On a well-formed table the row found under a key is a stored
    payload. *)
Lemma well_formed_select t k r :
  well_formed t → select_by_id k t = Some r →
  ∃ w, r = stored k w ∧ storable w = true.
Proof.
  intros [_ Hrows] Hsel. destruct (select_by_id_Some _ _ _ Hsel) as [Hk Hr].
  rewrite Forall_forall in Hrows. destruct (Hrows r Hr) as [_ (w & Hw & Hsw)].
  rewrite Hk in Hw. by exists w.
Qed.

Lemma well_formed_next_rowid t :
  well_formed t → 0 < next_rowid t ≤ int64_max.
Proof.
  intros Hwf. apply next_rowid_range, Forall_forall. intros k Hk.
  by apply (well_formed_positive t).
Qed.

Lemma typed_stored k w : storable w = true → typed (stored k w).
Proof. by exists w. Qed.

Lemma well_formed_table_after req t :
  well_formed t → well_formed (table_after req t).
Proof.
  intros Hwf. pose proof Hwf as [Hnodup Hrows].
  destruct req as [body| |k|k body|k]; cbn [table_after]; try done.
  - destruct (schemas.parse body) as [w|]; [|done].
    destruct (storable w) eqn:Hstorable; cbn [andb]; [|done].
    case_bool_decide as Hfresh; [|done]. split.
    + rewrite ids_insert_row. apply NoDup_app.
      split_and!; [done| |apply NoDup_singleton].
      by intros k Hk ->%list_elem_of_singleton.
    + apply Forall_app. split; [done|]. apply Forall_singleton.
      split; [by apply well_formed_next_rowid | by apply typed_stored].
  - destruct (schemas.parse body) as [w|]; [|done].
    destruct (fits k); cbn [andb]; [|done].
    destruct (storable w) eqn:Hstorable; cbn [andb]; [|done].
    case_bool_decide as Hin; [|done]. split.
    + by rewrite ids_update_row.
    + apply Forall_update_row; [|done].
      split; [by apply (well_formed_key t) | by apply typed_stored].
  - destruct (fits k); cbn [andb]; [|done].
    case_bool_decide as Hin; [|done]. split.
    + rewrite ids_delete_row. by apply NoDup_filter.
    + by apply Forall_delete_row.
Qed.

Lemma reachable_well_formed t : reachable t → well_formed t.
Proof.
  induction 1 as [|req t _ IH].
  - split; [apply NoDup_nil_2 | constructor].
  - rewrite serve_table. by apply well_formed_table_after.
Qed.

(** On typed rows the response model of the list route never fails and
    shows the rows one for one. *)
Lemma render_typed t :
  Forall typed t →
  ∃ outs, mapM (λ r, schemas.from_orm (models.of_row r)) t = Some outs
          ∧ Forall2 represents outs t.
Proof.
  induction 1 as [|r t (w & Hr & _) _ (outs & Houts & Hrep)].
  - exists []. split; [done | constructor].
  - exists (shown (row_id r) w :: outs). split.
    + cbn [mapM]. rewrite Hr at 1. rewrite from_orm_stored. simpl.
      by rewrite Houts.
    + constructor; [|done]. rewrite Hr at 2. apply represents_shown.
Qed.

Lemma well_formed_typed t : well_formed t → Forall typed t.
Proof.
  intros [_ Hrows]. eapply Forall_impl; [done|]. by intros r [_ ?].
Qed.

End invariant.

(** ** Frame lemmas: the rows with another key *)
Section frame_facts.
Import database.

Lemma select_by_id_others k k' t :
  k' ≠ k → select_by_id k' (others k t) = select_by_id k' t.
Proof.
  intros Hne. unfold others. induction t as [|r0 t IH]; [done|].
  destruct (decide (row_id r0 = k)) as [Heq|Hne0].
  - rewrite filter_cons_False by (by intros ?). cbn [select_by_id].
    by rewrite decide_False by congruence.
  - rewrite filter_cons_True by done. cbn [select_by_id]. by rewrite IH.
Qed.

Lemma others_insert_row k r t :
  row_id r = k → others k (insert_row r t) = others k t.
Proof.
  intros Hk. unfold others, insert_row. rewrite filter_app.
  rewrite filter_cons_False by (by intros ?). by rewrite filter_nil, app_nil_r.
Qed.

Lemma others_update_row k r t :
  row_id r = k → others k (update_row k r t) = others k t.
Proof.
  intros Hk. unfold others. induction t as [|r0 t IH]; [done|].
  cbn [update_row]. destruct (decide (row_id r0 = k)) as [Heq|Hne].
  - by rewrite !filter_cons_False by (by intros ?).
  - by rewrite !filter_cons_True, IH by done.
Qed.

Lemma others_delete_row k t : others k (delete_row k t) = others k t.
Proof.
  unfold others. induction t as [|r0 t IH]; [done|].
  cbn [delete_row]. destruct (decide (row_id r0 = k)) as [Heq|Hne].
  - by rewrite filter_cons_False by (by intros ?).
  - by rewrite !filter_cons_True, IH by done.
Qed.

End frame_facts.

(** ** The claims *)
Section claims.
Context `{Pydantic} `{database.Sqlite}.
Import database.

(** A body that carries a payload is valid, and its payload is taken as
    it stands. *)
Lemma parse_carries body w : carries body w → schemas.parse body = Some w.
Proof.
  destruct body as [| | | | | |items]; try done. intros (Ht & Hl & Hr).
  unfold schemas.parse. rewrite Ht, Hl, Hr. simpl.
  rewrite str_validator_str. simpl. rewrite !int_validator_int. simpl.
  by destruct w.
Qed.

(** The malformed bodies are exactly those that validation rejects. *)
Lemma parse_malformed body : malformed body ↔ schemas.parse body = None.
Proof.
  destruct body as [| | | | | |items]; try done.
  unfold malformed, refused, schemas.parse.
  destruct (dict_get "title" items) as [vt|]; simpl; [|by split; [|left]].
  destruct (str_validator vt) as [ti|]; simpl; [|by split; [|left]].
  destruct (dict_get "load" items) as [vl|]; simpl; [|by split; [|right; left]].
  destruct (int_validator vl) as [lo|]; simpl; [|by split; [|right; left]].
  destruct (dict_get "reps" items) as [vr|]; simpl; [|by split; [|right; right]].
  destruct (int_validator vr) as [re|]; simpl; [|by split; [|right; right]].
  split; [|done]. by intros [?|[?|?]].
Qed.


(** C2. Right after a create has answered 201 with an output, get-one on
    the id of that output answers 200 with the same output: the same id,
    title, load and reps. *)
Theorem get_after_create body t out t' :
  serve (POST_workouts body) t = (mkResponse 201 (Json out), t') →
  serve (GET_workout (schemas.out_id out)) t' = (mkResponse 200 (Json out), t').
Proof.
  intros (workout & _ & _ & Hfresh & Hfits & -> & ->)%serve_create_201.
  apply serve_get_stored; [done|]. cbn [shown schemas.out_id].
  by apply (select_insert_new t (stored (next_rowid t) workout)).
Qed.



(** C5. On every table the service can be in, delete of an existing id
    answers 204 with an empty body and leaves the table without the rows
    of that id: no record has the id any more, every other row is still
    there, and get-one on the id then answers 404. *)
Theorem delete_removes k t :
  reachable t →
  k ∈ ids t →
  serve (DELETE_workout k) t = (mkResponse 204 NoContent, delete_row k t)
  ∧ (k ∉ ids (delete_row k t))
  ∧ others k (delete_row k t) = others k t
  ∧ serve (GET_workout k) (delete_row k t)
    = (mkResponse 404 (Detail "Workout not found"), delete_row k t).
Proof.
  intros Hreach Hin.
  assert (fits k = true) as Hfits
    by (apply (well_formed_fits t); [by apply reachable_well_formed | done]).
  assert (k ∉ ids (delete_row k t)) as Hgone
    by apply select_by_id_None, select_delete_same.
  split_and!.
  - by apply serve_delete_found.
  - done.
  - apply others_delete_row.
  - by apply serve_get_missing.
Qed.

(** C6. The list route answers 200 on every table the service can be in,
    leaves the table as it is, and returns one output per record, each
    showing its record; on the empty table that is the empty list, and
    when the table is the result of two creates in a row the outputs of
    both are in the list, which has at least two elements. *)
Theorem list_returns_all_records t :
  reachable t →
  ∃ outs,
    serve GET_workouts t = (mkResponse 200 (JsonList outs), t)
    ∧ Forall2 represents outs t
    ∧ (t = [] → outs = [])
    ∧ (∀ body1 body2 out1 out2 t0 t1,
         serve (POST_workouts body1) t0 = (mkResponse 201 (Json out1), t1) →
         serve (POST_workouts body2) t1 = (mkResponse 201 (Json out2), t) →
         out1 ∈ outs ∧ out2 ∈ outs ∧ (2 ≤ length outs)%nat).
Proof.
  intros Hreach. pose proof (reachable_well_formed t Hreach) as Hwf.
  destruct (render_typed t) as (outs & Hrender & Hrep);
    [by apply well_formed_typed|].
  exists outs. split_and!.
  - rewrite serve_list, Hrender. done.
  - done.
  - intros ->. by apply Forall2_nil_inv_r in Hrep.
  - intros body1 body2 out1 out2 t0 t1 Hfirst Hsecond.
    apply serve_create_201 in Hfirst as (w1 & _ & _ & _ & _ & -> & ->).
    apply serve_create_201 in Hsecond as (w2 & _ & _ & _ & _ & -> & ->).
    unfold insert_row in Hrep. rewrite <-app_assoc in Hrep.
    apply Forall2_app_inv_r in Hrep as (outs0 & outs12 & _ & Hrep & ->).
    apply Forall2_cons_inv_r in Hrep as (o1 & outs2 & Ho1 & Hrep & ->).
    apply Forall2_cons_inv_r in Hrep as (o2 & outs3 & Ho2 & Hrep & ->).
    apply Forall2_nil_inv_r in Hrep as ->.
    assert (∀ o k w, represents o (stored k w) → o = shown k w) as Hshown.
    { intros [ti lo re i] k w. unfold represents, stored, shown. simpl.
      by intros [= -> -> -> ->]. }
    apply Hshown in Ho1 as ->. apply Hshown in Ho2 as ->.
    rewrite length_app. simpl. split_and!; [| |lia].
    + apply elem_of_app. right. left.
    + apply elem_of_app. right. right. left.
Qed.

(** C7. On every table the service can be in no two records share an id,
    and the same holds after any request.  No request changes the id of a
    record: the keys an update writes never include "id" and the id
    column is the same list after an update (and after a read), a create
    only appends one id to the column, and a delete only drops the
    addressed id from it. *)
Theorem id_immutable_and_unique req t :
  reachable t →
  NoDup (ids t)
  ∧ NoDup (ids (serve req t).2)
  ∧ (∀ update : schemas.WorkoutUpdate, "id" ∉ (schemas.dict update).*1)
  ∧ match req with
    | POST_workouts _ => ids t `prefix_of` ids (serve req t).2
    | DELETE_workout k => ids (serve req t).2 = filter (λ k', k' ≠ k) (ids t)
    | GET_workouts | GET_workout _ | PUT_workout _ _ =>
        ids (serve req t).2 = ids t
    end.
Proof.
  intros Hreach. pose proof (reachable_well_formed t Hreach) as Hwf.
  split_and!.
  - by destruct Hwf.
  - by destruct (reachable_well_formed _ (reachable_serve req t Hreach)).
  - intros update Hin. cbn in Hin.
    repeat (apply elem_of_cons in Hin as [?|Hin]; [done|]).
    by apply elem_of_nil in Hin.
  - rewrite serve_table.
    destruct req as [body| |k|k body|k]; cbn [table_after]; try done.
    + destruct (schemas.parse body); [|done].
      destruct (_ && _); [|done].
      rewrite ids_insert_row. by apply prefix_app_r.
    + destruct (schemas.parse body); [|done].
      destruct (_ && _); [by apply ids_update_row | done].
    + destruct (decide (k ∈ ids t)) as [Hin|Hout].
      * rewrite (well_formed_fits t k Hwf Hin), bool_decide_true by done.
        apply ids_delete_row.
      * rewrite bool_decide_false, andb_false_r by done.
        by rewrite <-ids_delete_row, delete_row_absent.
Qed.

(** C8. A create or update request whose body lacks a field or carries a
    value its validator refuses answers 422 with the validation errors;
    the answer is the same whatever the table holds, so it is given
    without consulting the storage, and the table is left exactly as it
    was. *)
Theorem malformed_body_rejected body k t :
  malformed body →
  serve (POST_workouts body) t = (mkResponse 422 ValidationErrors, t)
  ∧ serve (PUT_workout k body) t = (mkResponse 422 ValidationErrors, t).
Proof.
  intros Hparse%parse_malformed. split.
  - by apply serve_create_invalid.
  - by apply serve_update_invalid.
Qed.

(** C9. A request touches at most the record it addresses: the rows with
    any other id are, in order, the same rows before and after it, so a
    lookup of any other id finds the same record; a read leaves the whole
    table as it is; and so does every request answered with 404. *)
Theorem requests_frame req t :
  (∀ k, addressed req t = Some k →
        others k (serve req t).2 = others k t
        ∧ ∀ k', k' ≠ k → select_by_id k' (serve req t).2 = select_by_id k' t)
  ∧ (reads req = true → (serve req t).2 = t)
  ∧ (status (serve req t).1 = 404 → (serve req t).2 = t).
Proof.
  assert (∀ k, addressed req t = Some k →
               others k (serve req t).2 = others k t) as Hothers.
  { intros k Haddr. rewrite serve_table.
    destruct req as [body| |k0|k0 body|k0]; cbn [table_after];
      simplify_eq/=; try done.
    - destruct (schemas.parse body); [|done].
      destruct (_ && _); [by apply others_insert_row | done].
    - destruct (schemas.parse body); [|done].
      destruct (_ && _); [by apply others_update_row | done].
    - destruct (_ && _); [apply others_delete_row | done]. }
  split_and!.
  - intros k Haddr. split; [by apply Hothers|]. intros k' Hne.
    rewrite <-(select_by_id_others k k' (serve req t).2) by done.
    rewrite (Hothers k Haddr). by apply select_by_id_others.
  - intros Hreads. rewrite serve_table. by destruct req.
  - destruct req as [body| |k|k body|k].
    + destruct (schemas.parse body) as [workout|] eqn:Hparse.
      * rewrite (serve_create _ _ _ Hparse).
        destruct (_ && _); [|done]. by destruct (fits _).
      * by rewrite (serve_create_invalid _ _ Hparse).
    + intros _. by rewrite serve_table.
    + intros _. by rewrite serve_table.
    + destruct (schemas.parse body) as [update|] eqn:Hparse.
      * rewrite (serve_update _ _ _ _ Hparse).
        destruct (fits k); [|done]. destruct (select_by_id k t); [|done].
        by destruct (storable update).
      * by rewrite (serve_update_invalid _ _ _ Hparse).
    + rewrite serve_delete.
      destruct (fits k); [|done]. by destruct (select_by_id k t).
Qed.


End claims.

(** ** The claims on a concrete run

    The service is run with the validators and the store of the examples
    on the bodies of the specification: a bench press and a squat are
    created on the empty table, which gives them the ids 1 and 2. *)

(** The scenario of the specification, request by request. *)
Example scenario :
  run [POST_workouts bench; POST_workouts squat; GET_workouts;
       PUT_workout 1 squat; GET_workout 1;
       DELETE_workout 2; GET_workout 2; GET_workouts;
       GET_workout 999999; PUT_workout 999999 bench; DELETE_workout 999999;
       POST_workouts no_load; POST_workouts heavy_load; POST_workouts bench] []
  = ([mkResponse 201 (Json (shown 1 bench_payload));
      mkResponse 201 (Json (shown 2 squat_payload));
      mkResponse 200 (JsonList [shown 1 bench_payload; shown 2 squat_payload]);
      mkResponse 200 (Json (shown 1 squat_payload));
      mkResponse 200 (Json (shown 1 squat_payload));
      mkResponse 204 NoContent;
      not_found;
      mkResponse 200 (JsonList [shown 1 squat_payload]);
      not_found; not_found; not_found;
      unprocessable; unprocessable;
      mkResponse 201 (Json (shown 2 bench_payload))],
     [stored 1 squat_payload; stored 2 bench_payload]).
Proof. vm_compute. reflexivity. Qed.

(** The same routes with integers beyond the store: nothing is written. *)
Example scenario_beyond_the_store :
  run [POST_workouts too_heavy; GET_workout 9223372036854775808;
       PUT_workout 1 too_few; PUT_workout (-9223372036854775809) squat;
       DELETE_workout 9223372036854775808] gym
  = ([server_error; server_error; server_error; server_error; server_error],
     gym).
Proof. vm_compute. reflexivity. Qed.

Lemma gym_reachable : reachable gym.
Proof.
  exact (reachable_serve (POST_workouts squat) _
           (reachable_serve (POST_workouts bench) _ reachable_empty)).
Defined.

Lemma gym_has_room : has_room gym.
Proof. repeat constructor. Defined.

Lemma gym_has_1 : 1 ∈ database.ids gym.
Proof. left. Defined.




Lemma get_after_create_witness :
  serve (POST_workouts bench) gym
    = (mkResponse 201 (Json (shown 3 bench_payload)), gym ++ [stored 3 bench_payload])
  ∧ serve (GET_workout 3) (gym ++ [stored 3 bench_payload])
    = (mkResponse 200 (Json (shown 3 bench_payload)), gym ++ [stored 3 bench_payload]).
Proof.
  split; [reflexivity|].
  apply (get_after_create bench gym (shown 3 bench_payload)). reflexivity.
Defined.





Lemma delete_removes_witness :
  reachable gym
  ∧ 1 ∈ database.ids gym
  ∧ serve (DELETE_workout 1) gym
    = (mkResponse 204 NoContent, [stored 2 squat_payload])
  ∧ (1 ∉ database.ids [stored 2 squat_payload])
  ∧ others 1 [stored 2 squat_payload] = others 1 gym
  ∧ serve (GET_workout 1) [stored 2 squat_payload]
    = (mkResponse 404 (Detail "Workout not found"), [stored 2 squat_payload]).
Proof.
  split; [apply gym_reachable|]. split; [apply gym_has_1|].
  apply (delete_removes 1 gym); [apply gym_reachable | apply gym_has_1].
Defined.

Lemma list_returns_all_records_witness :
  reachable gym
  ∧ ∃ outs,
      serve GET_workouts gym = (mkResponse 200 (JsonList outs), gym)
      ∧ Forall2 represents outs gym
      ∧ (gym = [] → outs = [])
      ∧ (∀ body1 body2 out1 out2 t0 t1,
           serve (POST_workouts body1) t0 = (mkResponse 201 (Json out1), t1) →
           serve (POST_workouts body2) t1 = (mkResponse 201 (Json out2), gym) →
           out1 ∈ outs ∧ out2 ∈ outs ∧ (2 ≤ length outs)%nat).
Proof.
  split; [apply gym_reachable|].
  apply (list_returns_all_records gym), gym_reachable.
Defined.

Lemma id_immutable_and_unique_witness :
  reachable gym
  ∧ NoDup (database.ids gym)
  ∧ NoDup (database.ids (serve (PUT_workout 1 squat) gym).2)
  ∧ (∀ update : schemas.WorkoutUpdate, "id" ∉ (schemas.dict update).*1)
  ∧ database.ids (serve (PUT_workout 1 squat) gym).2 = database.ids gym.
Proof.
  split; [apply gym_reachable|].
  apply (id_immutable_and_unique (PUT_workout 1 squat) gym), gym_reachable.
Defined.

Lemma malformed_body_rejected_witness :
  (malformed no_load ∧ malformed heavy_load)
  ∧ (serve (POST_workouts no_load) gym = (mkResponse 422 ValidationErrors, gym)
     ∧ serve (PUT_workout 1 no_load) gym = (mkResponse 422 ValidationErrors, gym))
  ∧ (serve (POST_workouts heavy_load) gym = (mkResponse 422 ValidationErrors, gym)
     ∧ serve (PUT_workout 1 heavy_load) gym
       = (mkResponse 422 ValidationErrors, gym)).
Proof.
  assert (malformed no_load) as Hmissing by (right; left; exact I).
  assert (malformed heavy_load) as Hmismatch by (right; left; reflexivity).
  split; [by split|]. split.
  - apply (malformed_body_rejected no_load 1 gym), Hmissing.
  - apply (malformed_body_rejected heavy_load 1 gym), Hmismatch.
Defined.

Lemma requests_frame_witness :
  (addressed (DELETE_workout 1) gym = Some 1
   ∧ others 1 (serve (DELETE_workout 1) gym).2 = others 1 gym
   ∧ database.select_by_id 2 (serve (DELETE_workout 1) gym).2
     = database.select_by_id 2 gym)
  ∧ (status (serve (PUT_workout 999999 squat) gym).1 = 404
     ∧ (serve (PUT_workout 999999 squat) gym).2 = gym).
Proof.
  split.
  - split; [reflexivity|].
    destruct (requests_frame (DELETE_workout 1) gym) as (Hframe & _ & _).
    destruct (Hframe 1 eq_refl) as [Hothers Hselect].
    split; [exact Hothers | by apply Hselect].
  - split; [reflexivity|].
    by apply (requests_frame (PUT_workout 999999 squat) gym).
Defined.


(** * Further properties of the handlers *)

(** ** More statements on the table *)
Section more_table_facts.
Context `{database.Sqlite}.
Import database.

Lemma update_row_absent k r t : k ∉ ids t → update_row k r t = t.
Proof.
  unfold ids. induction t as [|r0 t IH]; [done|].
  cbn [update_row]. rewrite fmap_cons, not_elem_of_cons. intros [Hne Hout].
  rewrite decide_False by done. by rewrite IH.
Qed.


Lemma update_row_comm k1 k2 r1 r2 t :
  row_id r1 = k1 → row_id r2 = k2 → k1 ≠ k2 →
  update_row k1 r1 (update_row k2 r2 t) = update_row k2 r2 (update_row k1 r1 t).
Proof.
  intros Hk1 Hk2 Hne. induction t as [|r0 t IH]; [done|].
  cbn [update_row].
  destruct (decide (row_id r0 = k2)) as [Heq2|Hne2];
    destruct (decide (row_id r0 = k1)) as [Heq1|Hne1];
    cbn [update_row]; [congruence|..].
  - rewrite (decide_False (P := row_id r2 = k1)) by congruence.
    rewrite decide_True by done. by rewrite IH.
  - rewrite decide_True by done.
    rewrite (decide_False (P := row_id r1 = k2)) by congruence. by rewrite IH.
  - rewrite !decide_False by done. by rewrite IH.
Qed.

Lemma update_delete_comm k1 k2 r1 t :
  row_id r1 = k1 → k1 ≠ k2 →
  update_row k1 r1 (delete_row k2 t) = delete_row k2 (update_row k1 r1 t).
Proof.
  intros Hk1 Hne. induction t as [|r0 t IH]; [done|].
  cbn [update_row delete_row].
  destruct (decide (row_id r0 = k2)) as [Heq2|Hne2];
    destruct (decide (row_id r0 = k1)) as [Heq1|Hne1];
    cbn [update_row delete_row]; [congruence|..].
  - by rewrite decide_True by done.
  - rewrite decide_True by done.
    rewrite (decide_False (P := row_id r1 = k2)) by congruence. by rewrite IH.
  - rewrite !decide_False by done. by rewrite IH.
Qed.

Lemma delete_row_comm k1 k2 t :
  delete_row k1 (delete_row k2 t) = delete_row k2 (delete_row k1 t).
Proof.
  induction t as [|r0 t IH]; [done|]. cbn [delete_row].
  destruct (decide (row_id r0 = k2)) as [Heq2|Hne2];
    destruct (decide (row_id r0 = k1)) as [Heq1|Hne1];
    cbn [delete_row]; rewrite ?decide_True, ?decide_False by done;
    by rewrite ?IH.
Qed.

(** Deleting the row that was just inserted under a new key gives the
    table back. *)
Lemma delete_inserted r t :
  row_id r ∉ ids t → delete_row (row_id r) (insert_row r t) = t.
Proof.
  unfold insert_row, ids. induction t as [|r0 t IH].
  - intros _. cbn. by rewrite decide_True.
  - rewrite fmap_cons, not_elem_of_cons. intros [Hne Hout].
    cbn [app delete_row]. rewrite decide_False by done. by rewrite IH.
Qed.

Lemma length_update_row k r t : length (update_row k r t) = length t.
Proof.
  induction t as [|r0 t IH]; [done|]. cbn [update_row].
  case_decide; cbn [length]; by rewrite IH.
Qed.

(** With distinct keys a delete takes exactly one row away. *)
Lemma length_delete_row k t :
  NoDup (ids t) → k ∈ ids t → S (length (delete_row k t)) = length t.
Proof.
  unfold ids. induction t as [|r0 t IH]; [by intros _ ?%elem_of_nil|].
  rewrite fmap_cons, NoDup_cons. intros [Hfresh Hnodup] Hin.
  cbn [delete_row]. destruct (decide (row_id r0 = k)) as [Heq|Hne].
  - subst k. by rewrite delete_row_absent.
  - cbn [length]. rewrite IH; [done..|].
    apply elem_of_cons in Hin as [?|?]; [congruence | done].
Qed.

(** With distinct keys the row found under a key is any row of that key. *)
Lemma select_by_id_member r t :
  NoDup (ids t) → r ∈ t → select_by_id (row_id r) t = Some r.
Proof.
  unfold ids. induction t as [|r0 t IH]; [by intros _ ?%elem_of_nil|].
  rewrite fmap_cons, NoDup_cons. intros [Hfresh Hnodup] Hin.
  cbn [select_by_id]. apply elem_of_cons in Hin as [->|Hin].
  - by rewrite decide_True.
  - rewrite decide_False; [by apply IH|].
    intros Heq. apply Hfresh. rewrite Heq. by apply list_elem_of_fmap_2.
Qed.

(** Writing to a key the row it already holds changes nothing. *)
Lemma update_row_same k r t :
  NoDup (ids t) → select_by_id k t = Some r → update_row k r t = t.
Proof.
  unfold ids. induction t as [|r0 t IH]; [done|].
  rewrite fmap_cons, NoDup_cons. intros [Hfresh Hnodup].
  cbn [select_by_id update_row].
  destruct (decide (row_id r0 = k)) as [Heq|Hne].
  - intros [= ->]. subst k. by rewrite update_row_absent.
  - intros Hsel. by rewrite IH.
Qed.




End more_table_facts.

(** ** More on what a request does *)
Section more_service.
Context `{Pydantic} `{database.Sqlite}.
Import database.

(** The answer of a route with a path parameter depends on the table only
    through the row found under that parameter. *)
Lemma serve_path_response req k t t' :
  path_id req = Some k →
  select_by_id k t = select_by_id k t' →
  (serve req t).1 = (serve req t').1.
Proof.
  intros Hpath Hsel.
  destruct req as [body| |k0|k0 body|k0]; cbn [path_id] in Hpath; simplify_eq.
  - by rewrite !serve_get, Hsel.
  - destruct (schemas.parse body) as [update|] eqn:Hparse.
    + rewrite !(serve_update _ _ _ _ Hparse), Hsel.
      destruct (fits k); [|done]. destruct (select_by_id k t'); [|done].
      by destruct (storable update).
    + by rewrite !(serve_update_invalid _ _ _ Hparse).
  - rewrite !serve_delete, Hsel.
    destruct (fits k); [|done]. by destruct (select_by_id k t').
Qed.

(** The table such a route leaves, without case distinction on the row. *)
Lemma serve_update_table k body t :
  (serve (PUT_workout k body) t).2 =
    match schemas.parse body with
    | Some update =>
        if fits k && storable update
        then update_row k (stored k update) t
        else t
    | None => t
    end.
Proof.
  rewrite serve_table. cbn [table_after].
  destruct (schemas.parse body) as [update|]; [|done].
  destruct (fits k && storable update); [|done]. cbn [andb].
  case_bool_decide; [done | by rewrite update_row_absent].
Qed.

Lemma serve_delete_table k t :
  (serve (DELETE_workout k) t).2 = if fits k then delete_row k t else t.
Proof.
  rewrite serve_table. cbn [table_after].
  destruct (fits k); [|done]. cbn [andb].
  case_bool_decide; [done | by rewrite delete_row_absent].
Qed.

Lemma serve_get_table k t : (serve (GET_workout k) t).2 = t.
Proof. by rewrite serve_table. Qed.

(** A route with a path parameter leaves the rows of other keys alone. *)
Lemma serve_select_other req k k' t :
  path_id req = Some k → k' ≠ k →
  select_by_id k' (serve req t).2 = select_by_id k' t.
Proof.
  intros Hpath Hne.
  rewrite <-(select_by_id_others k k' (serve req t).2) by done.
  rewrite <-(select_by_id_others k k' t) by done. f_equal.
  destruct req as [body| |k0|k0 body|k0]; cbn [path_id] in Hpath; simplify_eq.
  - by rewrite serve_get_table.
  - rewrite serve_update_table. destruct (schemas.parse body); [|done].
    destruct (_ && _); [by apply others_update_row | done].
  - rewrite serve_delete_table.
    destruct (fits k); [apply others_delete_row | done].
Qed.

Lemma parse_json_of out :
  schemas.parse (json_of out)
  = Some (schemas.mkWorkoutBase (schemas.out_title out) (schemas.out_load out)
                                (schemas.out_reps out)).
Proof. by apply parse_carries. Qed.


(** On a well-formed table get-one answers 200, 404 or 500, by the key
    and the row it finds. *)
Lemma serve_get_status k t :
  well_formed t →
  status (serve (GET_workout k) t).1
  = if fits k
    then match select_by_id k t with Some _ => 200 | None => 404 end
    else 500.
Proof.
  intros Hwf. rewrite serve_get. cbn [fst].
  destruct (fits k); [|done].
  destruct (select_by_id k t) as [r|] eqn:Hsel; [|done].
  destruct (well_formed_select t k r Hwf Hsel) as (w & -> & _).
  by rewrite from_orm_stored.
Qed.

(** On a well-formed table a create that finds a key answers 201. *)
Lemma well_formed_next_fits t : well_formed t → fits (next_rowid t) = true.
Proof.
  intros Hwf. destruct (well_formed_next_rowid t Hwf).
  apply fits_range. unfold int64_min. lia.
Qed.

End more_service.

(** ** Further theorems *)
Section further.
Context `{Pydantic} `{database.Sqlite}.
Import database.

(** X1. A body is read through its three fields only: two objects that
    agree on "title", "load" and "reps" get the same answer and leave the
    same table, for create and for update alike.  Whatever else a body
    holds, an "id" included, is ignored. *)
Theorem body_read_by_fields items items' k t :
  dict_get "title" items = dict_get "title" items' →
  dict_get "load" items = dict_get "load" items' →
  dict_get "reps" items = dict_get "reps" items' →
  serve (POST_workouts (VDict items)) t = serve (POST_workouts (VDict items')) t
  ∧ serve (PUT_workout k (VDict items)) t = serve (PUT_workout k (VDict items')) t.
Proof.
  intros Ht Hl Hr.
  assert (schemas.parse (VDict items) = schemas.parse (VDict items')) as Hparse
    by (unfold schemas.parse; by rewrite Ht, Hl, Hr).
  unfold serve, with_body. by rewrite Hparse.
Qed.



(** X3. Deleting the record a create has just made gives the table back
    exactly as it was before the create; on a table with room a create
    served next is then given the same id again. *)
Theorem create_then_delete_restores body out t t1 :
  serve (POST_workouts body) t = (mkResponse 201 (Json out), t1) →
  serve (DELETE_workout (schemas.out_id out)) t1 = (mkResponse 204 NoContent, t)
  ∧ (has_room t →
     ∀ body' out' t2,
       serve (POST_workouts body') t = (mkResponse 201 (Json out'), t2) →
       schemas.out_id out' = schemas.out_id out).
Proof.
  intros (workout & _ & _ & Hfresh & Hfits & -> & ->)%serve_create_201.
  cbn [shown schemas.out_id]. split.
  - rewrite serve_delete_found; [|done|].
    + f_equal. by apply (delete_inserted (stored (next_rowid t) workout)).
    + rewrite ids_insert_row. apply elem_of_app. right. left.
  - intros _ body' out' t2.
    by intros (w' & _ & _ & _ & _ & -> & _)%serve_create_201.
Qed.


(** X5. Get-one, update and delete on two different ids do not interfere:
    each is answered the same whether or not the other was served before
    it, and the table they leave is the same in either order. *)
Theorem requests_on_other_ids_commute req1 req2 k1 k2 t :
  path_id req1 = Some k1 →
  path_id req2 = Some k2 →
  k1 ≠ k2 →
  (serve req2 (serve req1 t).2).1 = (serve req2 t).1
  ∧ (serve req1 (serve req2 t).2).1 = (serve req1 t).1
  ∧ (serve req2 (serve req1 t).2).2 = (serve req1 (serve req2 t).2).2.
Proof.
  intros Hpath1 Hpath2 Hne. split_and!.
  - apply (serve_path_response req2 k2); [done|].
    by apply (serve_select_other req1 k1).
  - apply (serve_path_response req1 k1); [done|].
    by apply (serve_select_other req2 k2).
  - destruct req1 as [b1| |j1|j1 b1|j1]; cbn [path_id] in Hpath1; simplify_eq;
      destruct req2 as [b2| |j2|j2 b2|j2]; cbn [path_id] in Hpath2; simplify_eq;
      rewrite ?serve_get_table, ?serve_update_table, ?serve_delete_table;
      try done.
    + destruct (schemas.parse b1) as [u1|], (schemas.parse b2) as [u2|];
        try done.
      destruct (fits k1 && storable u1), (fits k2 && storable u2); try done.
      by apply update_row_comm.
    + destruct (schemas.parse b1) as [u1|]; [|done].
      destruct (fits k1 && storable u1), (fits k2); try done.
      symmetry. by apply update_delete_comm.
    + destruct (schemas.parse b2) as [u2|]; [|done].
      destruct (fits k1), (fits k2 && storable u2); try done.
      by apply update_delete_comm.
    + destruct (fits k1), (fits k2); try done. apply delete_row_comm.
Qed.

(** X6. The number of records follows the answers: a 201 means one
    record more, a 204 exactly one record less, and every other answer
    the same number of records. *)
Theorem record_count req t :
  reachable t →
  (status (serve req t).1 = 201 →
     length (serve req t).2 = S (length t))
  ∧ (status (serve req t).1 = 204 →
     S (length (serve req t).2) = length t)
  ∧ (status (serve req t).1 ≠ 201 → status (serve req t).1 ≠ 204 →
     length (serve req t).2 = length t).
Proof.
  intros Hreach. pose proof (reachable_well_formed t Hreach) as Hwf.
  pose proof Hwf as [Hnodup _].
  destruct req as [body| |k|k body|k].
  - destruct (schemas.parse body) as [workout|] eqn:Hparse.
    + rewrite (serve_create _ _ _ Hparse), (well_formed_next_fits t Hwf).
      destruct (_ && _); cbn [fst snd status]; [|by split_and!].
      unfold insert_row. rewrite length_app, Nat.add_1_r. by split_and!.
    + rewrite (serve_create_invalid _ _ Hparse). by split_and!.
  - destruct (render_typed t) as (outs & Hrender & _);
      [by apply well_formed_typed|].
    rewrite serve_list, Hrender. by split_and!.
  - rewrite serve_get_table, (serve_get_status k t) by done.
    destruct (fits k); [|by split_and!].
    destruct (select_by_id k t); by split_and!.
  - destruct (schemas.parse body) as [update|] eqn:Hparse.
    + rewrite (serve_update _ _ _ _ Hparse).
      destruct (fits k); [|by split_and!].
      destruct (select_by_id k t); [|by split_and!].
      destruct (storable update); cbn [fst snd]; [|by split_and!].
      rewrite length_update_row. by split_and!.
    + rewrite (serve_update_invalid _ _ _ Hparse). by split_and!.
  - rewrite serve_delete. destruct (fits k); [|by split_and!].
    destruct (select_by_id k t) as [r|] eqn:Hsel; [|by split_and!].
    cbn [fst snd status]. split_and!; [done| |done]. intros _.
    apply length_delete_row; [done|].
    apply select_by_id_is_Some. by rewrite Hsel.
Qed.

(** X7. The list and get-one agree: an output is in the list exactly when
    get-one on its id answers 200 with that very output. *)
Theorem list_get_consistent t :
  reachable t →
  ∃ outs,
    serve GET_workouts t = (mkResponse 200 (JsonList outs), t)
    ∧ ∀ out,
        out ∈ outs
        ↔ serve (GET_workout (schemas.out_id out)) t
          = (mkResponse 200 (Json out), t).
Proof.
  intros Hreach. pose proof (reachable_well_formed t Hreach) as Hwf.
  pose proof Hwf as [Hnodup _].
  destruct (render_typed t) as (outs & Hrender & Hrep);
    [by apply well_formed_typed|].
  exists outs. split; [by rewrite serve_list, Hrender|].
  assert (∀ out r, represents out r →
            r = stored (schemas.out_id out)
                  (schemas.mkWorkoutBase (schemas.out_title out)
                     (schemas.out_load out) (schemas.out_reps out))
            ∧ out = shown (schemas.out_id out)
                      (schemas.mkWorkoutBase (schemas.out_title out)
                         (schemas.out_load out) (schemas.out_reps out)))
    as Hshape by (by intros [ti lo re i] r ->).
  intros out. split.
  - intros Hin.
    apply list_elem_of_lookup in Hin as [i Hi].
    destruct (Forall2_lookup_l _ _ _ _ _ Hrep Hi) as (r & Hr & Hout).
    destruct (Hshape _ _ Hout) as [Hstored Hshown].
    assert (r ∈ t) as Hrow by by eapply list_elem_of_lookup_2.
    assert (schemas.out_id out = row_id r) as Hid by by rewrite Hstored.
    rewrite Hshown at 2. apply serve_get_stored.
    + apply (well_formed_fits t); [done|]. rewrite Hid.
      by apply list_elem_of_fmap_2.
    + rewrite <-Hstored, Hid. by apply select_by_id_member.
  - intros Hget.
    assert ((serve (GET_workout (schemas.out_id out)) t).1
            = mkResponse 200 (Json out)) as Hresp by by rewrite Hget.
    rewrite serve_get in Hresp. cbn [fst] in Hresp.
    destruct (fits (schemas.out_id out)); [|done].
    destruct (select_by_id (schemas.out_id out) t) as [r|] eqn:Hsel; [|done].
    destruct (select_by_id_Some _ _ _ Hsel) as [Hk Hr].
    apply list_elem_of_lookup in Hr as [i Hi].
    destruct (Forall2_lookup_r _ _ _ _ _ Hrep Hi) as (out' & Hout' & Hrep').
    destruct (Hshape _ _ Hrep') as [Hstored Hshown].
    rewrite Hstored, from_orm_stored in Hresp. cbn in Hresp.
    injection Hresp as <-. rewrite <-Hshown. by eapply list_elem_of_lookup_2.
Qed.


(** X9. What get-one returns can be sent back: an update of the same id
    whose body is the JSON object of the output get-one answered with
    answers 200 with that output again and leaves the table as it is. *)
Theorem get_then_put_back k out t :
  reachable t →
  serve (GET_workout k) t = (mkResponse 200 (Json out), t) →
  serve (PUT_workout k (json_of out)) t = (mkResponse 200 (Json out), t).
Proof.
  intros Hreach Hget. pose proof (reachable_well_formed t Hreach) as Hwf.
  pose proof Hwf as [Hnodup _].
  assert ((serve (GET_workout k) t).1 = mkResponse 200 (Json out)) as Hresp
    by by rewrite Hget.
  rewrite serve_get in Hresp. cbn [fst] in Hresp.
  destruct (fits k) eqn:Hfits; [|done].
  destruct (select_by_id k t) as [r|] eqn:Hsel; [|done].
  destruct (well_formed_select t k r Hwf Hsel) as (w & -> & Hstorable).
  rewrite from_orm_stored in Hresp. cbn in Hresp. injection Hresp as <-.
  assert (schemas.parse (json_of (shown k w)) = Some w) as Hparse
    by (rewrite parse_json_of; by destruct w).
  rewrite (serve_update_found _ _ _ _ Hparse); [|done| |done].
  - f_equal. by apply update_row_same.
  - apply select_by_id_is_Some. by rewrite Hsel.
Qed.

(** X10. Although the columns would take a null, every record the service
    ever stores has a positive id, a string title and integer load and
    reps. *)
Theorem stored_records_are_complete t :
  reachable t →
  Forall (λ r, 0 < row_id r
               ∧ ∃ title load reps,
                   r = mkRow (row_id r) (VStr title) (VInt load) (VInt reps)) t.
Proof.
  intros [_ Hrows]%reachable_well_formed.
  eapply Forall_impl; [done|].
  intros r [[Hpos _] ([title load reps] & Hr & _)].
  split; [done|]. by exists title, load, reps.
Qed.

(** X11. Ids start at 1: get-one, update and delete on zero or on a
    negative id that the store can hold answer 404 and leave the table as
    it is. *)
Theorem nonpositive_id_not_found k body update t :
  reachable t →
  schemas.parse body = Some update →
  int64_min ≤ k ≤ 0 →
  serve (GET_workout k) t = (mkResponse 404 (Detail "Workout not found"), t)
  ∧ serve (PUT_workout k body) t
    = (mkResponse 404 (Detail "Workout not found"), t)
  ∧ serve (DELETE_workout k) t
    = (mkResponse 404 (Detail "Workout not found"), t).
Proof.
  intros Hreach Hparse Hk.
  assert (fits k = true) as Hfits
    by (apply fits_range; unfold int64_max; lia).
  assert (k ∉ ids t) as Hout.
  { intros Hin. apply (well_formed_positive t) in Hin; [lia|].
    by apply reachable_well_formed. }
  split_and!.
  - by apply serve_get_missing.
  - by apply (serve_update_missing _ _ update).
  - by apply serve_delete_missing.
Qed.

End further.

(** ** The session without commit *)

Lemma commit_free_table {A} (h : Handler A) (s : Session) :
  commit_free h → table (h s).2 = table s.
Proof.
  intros Hfree. revert s.
  induction Hfree as [A a|A e|A B m k _ IHm _ IHk|kwargs|obj key v|obj|obj|obj
                     |k|]; intros s.
  - done.
  - done.
  - unfold bind. specialize (IHm s). destruct (m s) as [[a|e] s']; cbn in *.
    + by rewrite IHk.
    + done.
  - unfold Workout_new. by destruct (models.init _ _).
  - unfold setattr. by destruct (objects s !! obj) as [[w st]|].
  - unfold db_add. by destruct (objects s !! obj) as [[w []]|].
  - unfold db_delete. by destruct (objects s !! obj) as [[w []]|].
  - unfold db_refresh. destruct (objects s !! obj) as [[w []]|]; try done.
    destruct (database.fits _); [|done].
    by destruct (database.select_by_id _ _).
  - unfold query_get. destruct (database.fits k); [|done].
    by destruct (database.select_by_id _ _).
  - unfold query_all. by rewrite load_all_runs.
Qed.

(** X12. Nothing reaches the table without a commit: a handler made of
    session calls other than [db.commit()], whether it returns or raises,
    leaves the table as it was once its session is closed.  The two
    reading handlers are of this kind. *)
Theorem nothing_persists_without_commit {A} (h : Handler A)
    (render : A → Session → option Response) (t : database.Table) :
  commit_free h →
  (endpoint h render t).2 = t.
Proof.
  intros Hfree. unfold endpoint.
  pose proof (commit_free_table h (get_db t) Hfree) as Htable.
  by destruct (h (get_db t)) as [[a|e] s].
Qed.

(** ** The further theorems on the concrete run *)

Lemma body_read_by_fields_witness :
  serve (POST_workouts (VDict [("id", VInt 7); ("title", VStr "Bench");
                               ("load", VInt 80); ("reps", VInt 5)])) gym
  = serve (POST_workouts bench) gym
  ∧ serve (PUT_workout 1 (VDict [("id", VInt 7); ("title", VStr "Bench");
                                 ("load", VInt 80); ("reps", VInt 5)])) gym
    = serve (PUT_workout 1 bench) gym.
Proof.
  apply (body_read_by_fields
           [("id", VInt 7); ("title", VStr "Bench"); ("load", VInt 80);
            ("reps", VInt 5)]
           [("title", VStr "Bench"); ("load", VInt 80); ("reps", VInt 5)]
           1 gym); reflexivity.
Defined.


Lemma create_then_delete_restores_witness :
  (serve (POST_workouts bench) gym
   = (mkResponse 201 (Json (shown 3 bench_payload)),
      gym ++ [stored 3 bench_payload])
   ∧ has_room gym)
  ∧ serve (DELETE_workout 3) (gym ++ [stored 3 bench_payload])
    = (mkResponse 204 NoContent, gym)
  ∧ ∀ body' out' t2,
      serve (POST_workouts body') gym = (mkResponse 201 (Json out'), t2) →
      schemas.out_id out' = 3.
Proof.
  assert (serve (POST_workouts bench) gym
          = (mkResponse 201 (Json (shown 3 bench_payload)),
             gym ++ [stored 3 bench_payload])) as Hcreated by reflexivity.
  split; [split; [exact Hcreated | apply gym_has_room]|].
  destruct (create_then_delete_restores bench (shown 3 bench_payload) gym
              (gym ++ [stored 3 bench_payload]) Hcreated)
    as [Hrestored Hagain].
  split; [exact Hrestored | exact (Hagain gym_has_room)].
Defined.


Lemma requests_on_other_ids_commute_witness :
  (path_id (PUT_workout 1 squat) = Some 1
   ∧ path_id (DELETE_workout 2) = Some 2 ∧ 1 ≠ 2)
  ∧ (serve (DELETE_workout 2) (serve (PUT_workout 1 squat) gym).2).1
    = (serve (DELETE_workout 2) gym).1
  ∧ (serve (PUT_workout 1 squat) (serve (DELETE_workout 2) gym).2).1
    = (serve (PUT_workout 1 squat) gym).1
  ∧ (serve (DELETE_workout 2) (serve (PUT_workout 1 squat) gym).2).2
    = (serve (PUT_workout 1 squat) (serve (DELETE_workout 2) gym).2).2.
Proof.
  split; [split_and!; [reflexivity | reflexivity | lia]|].
  apply (requests_on_other_ids_commute (PUT_workout 1 squat) (DELETE_workout 2)
           1 2 gym); [reflexivity | reflexivity | lia].
Defined.

Lemma record_count_witness :
  reachable gym
  ∧ status (serve (DELETE_workout 1) gym).1 = 204
  ∧ S (length (serve (DELETE_workout 1) gym).2) = length gym.
Proof.
  split; [apply gym_reachable|]. split; [reflexivity|].
  destruct (record_count (DELETE_workout 1) gym gym_reachable) as (_ & Hless & _).
  apply Hless. reflexivity.
Defined.

Lemma list_get_consistent_witness :
  reachable gym
  ∧ ∃ outs,
      serve GET_workouts gym = (mkResponse 200 (JsonList outs), gym)
      ∧ ∀ out,
          out ∈ outs
          ↔ serve (GET_workout (schemas.out_id out)) gym
            = (mkResponse 200 (Json out), gym).
Proof.
  split; [apply gym_reachable|].
  apply (list_get_consistent gym), gym_reachable.
Defined.


Lemma get_then_put_back_witness :
  reachable gym
  ∧ serve (GET_workout 1) gym = (mkResponse 200 (Json (shown 1 bench_payload)), gym)
  ∧ serve (PUT_workout 1 (json_of (shown 1 bench_payload))) gym
    = (mkResponse 200 (Json (shown 1 bench_payload)), gym).
Proof.
  split; [apply gym_reachable|]. split; [reflexivity|].
  apply (get_then_put_back 1 (shown 1 bench_payload) gym);
    [apply gym_reachable | reflexivity].
Defined.

Lemma stored_records_are_complete_witness :
  reachable gym
  ∧ Forall (λ r, 0 < database.row_id r
                 ∧ ∃ title load reps,
                     r = database.mkRow (database.row_id r) (VStr title)
                                        (VInt load) (VInt reps)) gym.
Proof.
  split; [apply gym_reachable|].
  apply (stored_records_are_complete gym), gym_reachable.
Defined.

Lemma nonpositive_id_not_found_witness :
  (reachable gym ∧ schemas.parse squat = Some squat_payload
   ∧ database.int64_min ≤ 0 ≤ 0)
  ∧ serve (GET_workout 0) gym = (mkResponse 404 (Detail "Workout not found"), gym)
  ∧ serve (PUT_workout 0 squat) gym
    = (mkResponse 404 (Detail "Workout not found"), gym)
  ∧ serve (DELETE_workout 0) gym
    = (mkResponse 404 (Detail "Workout not found"), gym).
Proof.
  assert (database.int64_min ≤ 0 ≤ 0) as Hzero
    by (split; vm_compute; discriminate).
  split; [split; [apply gym_reachable | split; [reflexivity | exact Hzero]]|].
  apply (nonpositive_id_not_found 0 squat squat_payload gym);
    [apply gym_reachable | reflexivity | exact Hzero].
Defined.

Lemma nothing_persists_without_commit_witness :
  commit_free (get_workout 999999)
  ∧ (endpoint (get_workout 999999) (render_one 200) gym).2 = gym.
Proof.
  assert (commit_free (get_workout 999999)) as Hfree.
  { apply commit_free_bind; [apply commit_free_get|].
    intros [obj|]; [apply commit_free_ret | apply commit_free_raise]. }
  split; [exact Hfree|].
  apply (nothing_persists_without_commit (get_workout 999999)), Hfree.
Defined.
